(** * simplecoin/tasks.py: share ledger, payout, cleanup and threshold alerts

    A shallow embedding of the accounting tasks of [simplecoin/tasks.py]
    (Python 2): the PPLNS window walk, the [payout] task, the [cleanup]
    task and the threshold branch of [agent_receive], together with the
    properties of the specification that concern them; then the tasks
    around them ([update_block_state], [update_coin_transaction],
    [cache_user_donation], [add_one_minute], the cache part of
    [new_block], the status branch of [agent_receive], [check_down]) with
    properties read off the code.

    Conventions
    - Python integers are [Z]; [//] is [Z.div] (both round to minus
      infinity).
    - Python floats are IEEE-754 binary64 values, modelled with the
      Standard Library's executable [spec_float] (precision 53, emax 1024).
    - A Python dict whose iteration order matters is an association list
      with distinct keys; new keys go to the end.  CPython 2 iterates a
      dict in an order of its own; the general statements below hold for
      the sums and so for any order, and the examples that evaluate a
      whole run with several users show the order chosen here.
    - A task body runs in the [res] monad: it yields a value, raises, or
      runs out of fuel (the model of a loop that does not stop).  The task
      wrapper turns a raise into rollback-and-retry. *)

From Stdlib Require Import ZArith List String Bool Lia.
From Stdlib Require Import QArith Qround.
From Stdlib Require Import Floats.SpecFloat.
Import ListNotations.
Local Open Scope string_scope.
Local Open Scope Z_scope.

(* ================================================================== *)
(** ** Results of a task body *)

Inductive exn : Type :=
| AttributeError
| ZeroDivisionError
| AssertionError
| OverflowError
| ValueError
| KeyError.

Inductive res (A : Type) : Type :=
| Ok (a : A)
| Raise (e : exn)
| NoFuel.

Arguments Ok {A} a.
Arguments Raise {A} e.
Arguments NoFuel {A}.

Definition bind {A B : Type} (m : res A) (k : A -> res B) : res B :=
  match m with
  | Ok a => k a
  | Raise e => Raise e
  | NoFuel => NoFuel
  end.

Notation "x <- m ;; k" := (bind m (fun x => k))
  (at level 61, m at next level, right associativity).
Notation "' pat <- m ;; k" := (bind m (fun x => match x with pat => k end))
  (at level 61, pat pattern, m at next level, right associativity).

(* ================================================================== *)
(** ** Python dicts with integer values *)

Definition dict : Type := list (string * Z).

Definition zsum (l : list Z) : Z := fold_right Z.add 0 l.

Definition values (d : dict) : list Z := map snd d.
Definition keys (d : dict) : list string := map fst d.

Fixpoint dict_get (k : string) (d : dict) : option Z :=
  match d with
  | [] => None
  | (k', v) :: t => if String.eqb k k' then Some v else dict_get k t
  end.

(** [d.setdefault(k, 0); d[k] += v] *)
Fixpoint dict_add (k : string) (v : Z) (d : dict) : dict :=
  match d with
  | [] => [(k, 0 + v)]
  | (k', x) :: t =>
      if String.eqb k k' then (k', x + v) :: t else (k', x) :: dict_add k v t
  end.

(** [d[k] = v] *)
Fixpoint dict_set (k : string) (v : Z) (d : dict) : dict :=
  match d with
  | [] => [(k, v)]
  | (k', x) :: t =>
      if String.eqb k k' then (k', v) :: t else (k', x) :: dict_set k v t
  end.

(** [d[k]], which raises [KeyError] on a missing key *)
Definition dict_item (k : string) (d : dict) : res Z :=
  match dict_get k d with
  | Some v => Ok v
  | None => Raise KeyError
  end.

(* ================================================================== *)
(** ** Python floats *)

Module PyFloat.

Definition prec : Z := 53.
Definition emax : Z := 1024.

Definition fmul : spec_float -> spec_float -> spec_float := SFmul prec emax.
Definition fdiv : spec_float -> spec_float -> spec_float := SFdiv prec emax.

(** The nearest double of an integer (ties to even) *)
Definition of_Z (z : Z) : spec_float := binary_normalize prec emax z 0 false.

(** [float(z)] and the implicit conversion of an int operand: an int
    beyond the range of a double raises [OverflowError]. *)
Definition float_of_int (z : Z) : res spec_float :=
  match of_Z z with
  | S754_infinity _ => Raise OverflowError
  | f => Ok f
  end.

Definition signed (s : bool) (m : positive) : Z :=
  if s then Z.neg m else Z.pos m.

(** [int(math.ceil(f))] *)
Definition int_ceil (f : spec_float) : res Z :=
  match f with
  | S754_zero _ => Ok 0
  | S754_finite s m e =>
      let v := signed s m in
      Ok (if 0 <=? e then v * 2 ^ e else - ((- v) / 2 ^ (- e)))
  | S754_infinity _ => Raise OverflowError
  | S754_nan => Raise ValueError
  end.

(** [int(math.floor(f))] *)
Definition int_floor (f : spec_float) : res Z :=
  match f with
  | S754_zero _ => Ok 0
  | S754_finite s m e =>
      let v := signed s m in
      Ok (if 0 <=? e then v * 2 ^ e else v / 2 ^ (- e))
  | S754_infinity _ => Raise OverflowError
  | S754_nan => Raise ValueError
  end.

(** [int(round(f))]: Python 2 rounds halves away from zero. *)
Definition int_round (f : spec_float) : res Z :=
  match f with
  | S754_zero _ => Ok 0
  | S754_finite s m e =>
      if 0 <=? e then Ok (signed s m * 2 ^ e)
      else
        let q := (2 * Z.pos m + 2 ^ (- e)) / (2 * 2 ^ (- e)) in
        Ok (if s then - q else q)
  | S754_infinity _ => Raise OverflowError
  | S754_nan => Raise ValueError
  end.

End PyFloat.

(* ================================================================== *)
(** ** Data model: the rows the tasks read and write *)

Record Share : Type := mkShare {
  s_id : Z;
  s_user : string;
  s_shares : Z
}.

Record Block : Type := mkBlock {
  b_hash : string;
  b_height : Z;
  b_bits : Z;
  b_total_value : Z;
  b_user : string;
  b_last_share_id : option Z;
  b_merged : bool;
  b_mature : bool;
  b_orphan : bool;
  b_processed : bool;
  b_donated : Z;
  b_bonus_payed : Z
}.

Record Payout : Type := mkPayout {
  p_user : string;
  p_amount : Z;
  p_block : string;
  p_shares : Z;
  p_perc : Z;
  p_perc_applied : Z
}.

Inductive bonus_kind : Type :=
| TotalDonations (height : Z)
| BlockfinderBonus (height : Z).

Record BonusPayout : Type := mkBonusPayout {
  bp_user : string;
  bp_amount : Z;
  bp_description : bonus_kind;
  bp_block : string
}.

Record DB : Type := mkDB {
  shares : list Share;
  blocks : list Block;
  payouts : list Payout;
  bonus_payouts : list BonusPayout;
  donation_percents : dict
}.

(** [current_app.config]; an optional key is read with [.get(key, default)]. *)
Record Config : Type := mkConfig {
  last_n : Z;
  default_perc : option Z;
  cleanup_n : option Z;
  block_bonus : option Z;
  donate_address : option string
}.

Definition config_get (o : option Z) (default : Z) : Z :=
  match o with
  | Some v => v
  | None => default
  end.

(** What a Celery task leaves behind: it returned, it rolled back and asked
    for a retry, or it never came back. *)
Inductive outcome : Type :=
| Returned
| Retry (e : exn)
| Diverged.

Definition run_task (db : DB) (body : res DB) : outcome * DB :=
  match body with
  | Ok db' => (Returned, db')
  | Raise e => (Retry e, db)
  | NoFuel => (Diverged, db)
  end.

(* ================================================================== *)
(** ** The share ledger and the window walk *)

Fixpoint insert_desc (s : Share) (l : list Share) : list Share :=
  match l with
  | [] => [s]
  | h :: t => if s_id h <=? s_id s then s :: l else h :: insert_desc s t
  end.

(** [order_by(Share.id.desc())] *)
Definition order_by_id_desc (l : list Share) : list Share :=
  fold_right insert_desc [] l.

(** The rows the walk streams: all of them, or those with
    [Share.id <= start]. *)
Definition ledger_rows (upper_cursor : option Z) (tbl : list Share) : list Share :=
  match upper_cursor with
  | None => order_by_id_desc tbl
  | Some start => order_by_id_desc (filter (fun s => s_id s <=? start) tbl)
  end.

Definition total_amount (rows : list Share) : Z := zsum (map s_shares rows).

(** The [for shares, user in ...] loop of [payout]: returns [user_shares]
    and what is left of [remain]. *)
Fixpoint walk (rows : list Share) (remain : Z) (user_shares : dict) : dict * Z :=
  match rows with
  | [] => (user_shares, remain)
  | r :: rest =>
      if remain >? s_shares r
      then walk rest (remain - s_shares r) (dict_add (s_user r) (s_shares r) user_shares)
      else (dict_add (s_user r) remain user_shares, 0)
  end.

Definition aggregate (budget : Z) (upper_cursor : option Z) (tbl : list Share)
  : dict * Z :=
  walk (ledger_rows upper_cursor tbl) budget [].

(** The total amount the walk can reach: the whole ledger, or the rows at
    or below the cursor. *)
Definition available (upper_cursor : option Z) (tbl : list Share) : Z :=
  match upper_cursor with
  | None => total_amount tbl
  | Some start => total_amount (filter (fun s => s_id s <=? start) tbl)
  end.

(** "if we found less than n": the ledger ran out before the budget did. *)
Definition exhausted (remain : Z) : bool := 0 <? remain.

(** Crediting every row of a list in full, in order *)
Definition credit_all (rows : list Share) (d : dict) : dict :=
  fold_left (fun d r => dict_add (s_user r) (s_shares r) d) rows d.

(* ================================================================== *)
(** ** The [payout] task *)

(** The configuration together with [cryptokit.bits_to_shares], a function
    of a library outside this repository, taken as a parameter. *)
Record Env : Type := mkEnv {
  config : Config;
  bits_to_shares : Z -> Z
}.

(** [filter_by(processed=False, merged=False)] *)
Definition unprocessed (b : Block) : bool :=
  negb (b_processed b) && negb (b_merged b).

(** [order_by(Block.height).first()]: a row of least height, the earliest
    in table order among equals. *)
Fixpoint first_by_height (l : list Block) : option Block :=
  match l with
  | [] => None
  | b :: t =>
      match first_by_height t with
      | None => Some b
      | Some m => if b_height b <=? b_height m then Some b else Some m
      end
  end.

Definition select_block (db : DB) : option Block :=
  first_by_height (filter unprocessed (blocks db)).

(** The relationship [block.last_share]: the row the cursor points to, or
    [None]. *)
Definition last_share (db : DB) (b : Block) : option Share :=
  match b_last_share_id b with
  | None => None
  | Some i => find (fun s => s_id s =? i) (shares db)
  end.

(** Lines 425-448: the share window of the block.  Returns [user_shares]
    and [total_shares] after [total_shares -= remain]. *)
Definition count_shares (env : Env) (db : DB) (block : Block) : res (dict * Z) :=
  let mult := last_n (config env) in
  let total_shares := bits_to_shares env (b_bits block) * mult in
  let remain := total_shares in
  match last_share db block with
  | None => Raise AttributeError
  | Some s =>
      let start := s_id s in
      let '(user_shares, remain) := aggregate remain (Some start) (shares db) in
      Ok (user_shares, total_shares - remain)
  end.

(** Lines 459-463: the truncated portion of every miner. *)
Fixpoint truncate (V total_shares : Z) (items : dict) (user_payouts : dict)
  (accrued : Z) : res (dict * Z) :=
  match items with
  | [] => Ok (user_payouts, accrued)
  | (user, share_count) :: rest =>
      if total_shares =? 0 then Raise ZeroDivisionError
      else
        let p := (share_count * V) / total_shares in
        truncate V total_shares rest (dict_set user p user_payouts) (accrued + p)
  end.

(** The item line 462 stores for an item of [user_shares] *)
Definition portion (V total_shares : Z) (item : string * Z) : string * Z :=
  (fst item, (snd item * V) / total_shares).

(** An item after the remainder loop against the item before it: the same
    user, and nothing or one unit more. *)
Definition unit_step (before after : string * Z) : Prop :=
  fst after = fst before
  /\ (snd after = snd before \/ snd after = snd before + 1).

(** An amount that a log line divides by a float: the conversion of the
    int raises when it is beyond the range of a double. *)
Definition log_amount (z : Z) : res unit :=
  _ <- PyFloat.float_of_int z ;; Ok tt.

Fixpoint log_amounts (l : list Z) : res unit :=
  match l with
  | [] => Ok tt
  | z :: t => _ <- log_amount z ;; log_amounts t
  end.

(** Lines 465-466: [accrued / float(block.total_value)] in the debug line. *)
Definition log_accrued (accrued V : Z) : res unit :=
  _ <- PyFloat.float_of_int V ;;
  _ <- PyFloat.float_of_int accrued ;;
  if V =? 0 then Raise ZeroDivisionError else Ok tt.

(** Lines 471-477: one pass of the [for key in user_payouts] loop. *)
Fixpoint rr_pass (V : Z) (d : dict) (accrued : Z) : dict * Z :=
  match d with
  | [] => ([], accrued)
  | (key, p) :: t =>
      let accrued := accrued + 1 in
      if accrued >=? V then ((key, p + 1) :: t, accrued)
      else
        let '(t', a) := rr_pass V t accrued in
        ((key, p + 1) :: t', a)
  end.

(** Lines 470-477: [while accrued < block.total_value]. *)
Fixpoint round_robin (fuel : nat) (V : Z) (user_payouts : dict) (accrued : Z)
  : res (dict * Z) :=
  if accrued <? V then
    match fuel with
    | O => NoFuel
    | S fuel =>
        let '(user_payouts, accrued) := rr_pass V user_payouts accrued in
        round_robin fuel V user_payouts accrued
    end
  else Ok (user_payouts, accrued).

(** Lines 459-480: the payouts before donations and bonuses. *)
Definition distribute (fuel : nat) (V total_shares : Z) (user_shares : dict)
  : res (dict * Z) :=
  '(user_payouts, accrued) <- truncate V total_shares user_shares [] 0 ;;
  _ <- log_accrued accrued V ;;
  round_robin fuel V user_payouts accrued.

Definition f100 : spec_float := PyFloat.of_Z 100.

(** [int(ceil((perc / 100.0) * payout))] *)
Definition donation_amount (perc payout : Z) : res Z :=
  fperc <- PyFloat.float_of_int perc ;;
  fpayout <- PyFloat.float_of_int payout ;;
  PyFloat.int_ceil (PyFloat.fmul (PyFloat.fdiv fperc f100) fpayout).

(** [int(floor((perc / 100.0) * payout))], with [perc] already negated *)
Definition bonus_amount (perc payout : Z) : res Z :=
  fperc <- PyFloat.float_of_int perc ;;
  fpayout <- PyFloat.float_of_int payout ;;
  PyFloat.int_floor (PyFloat.fmul (PyFloat.fdiv fperc f100) fpayout).

(** The locals of the donation and bonus pass *)
Record Adjust : Type := mkAdjust {
  user_payouts : dict;
  user_perc : dict;
  user_perc_applied : dict;
  donation_total : Z;
  bonus_total : Z
}.

(** Lines 490-491 *)
Definition custom_percs (db : DB) (user_shares : dict) : dict :=
  fold_left (fun d row => dict_set (fst row) (snd row) d)
    (filter (fun row => existsb (String.eqb (fst row)) (keys user_shares))
       (donation_percents db))
    [].

(** Lines 492-516; [items] are the items of [user_payouts] when the loop
    starts. *)
Fixpoint adjust (default : Z) (custom : dict) (items : dict) (a : Adjust)
  : res Adjust :=
  match items with
  | [] => Ok a
  | (user, payout) :: rest =>
      let perc :=
        match dict_get user custom with
        | Some p => p
        | None => default
        end in
      let percs := dict_set user perc (user_perc a) in
      if perc >? 0 then
        donation <- donation_amount perc payout ;;
        _ <- log_amount donation ;;
        adjust default custom rest
          {| user_payouts := dict_add user (- donation) (user_payouts a);
             user_perc := percs;
             user_perc_applied := dict_set user donation (user_perc_applied a);
             donation_total := donation_total a + donation;
             bonus_total := bonus_total a |}
      else if perc <? 0 then
        let perc := perc * -1 in
        bonus <- bonus_amount perc payout ;;
        _ <- log_amount bonus ;;
        adjust default custom rest
          {| user_payouts := dict_add user bonus (user_payouts a);
             user_perc := percs;
             user_perc_applied := dict_set user (-1 * bonus) (user_perc_applied a);
             donation_total := donation_total a;
             bonus_total := bonus_total a + bonus |}
      else
        adjust default custom rest
          {| user_payouts := user_payouts a;
             user_perc := percs;
             user_perc_applied := user_perc_applied a;
             donation_total := donation_total a;
             bonus_total := bonus_total a |}
  end.

(** Lines 482-523 *)
Definition adjust_all (env : Env) (db : DB) (user_shares payouts_in : dict)
  : res Adjust :=
  let default := config_get (default_perc (config env)) 0 in
  a <- adjust default (custom_percs db user_shares) payouts_in
         {| user_payouts := payouts_in; user_perc := [];
            user_perc_applied := []; donation_total := 0; bonus_total := 0 |} ;;
  _ <- log_amount (bonus_total a) ;;
  _ <- log_amount (donation_total a) ;;
  _ <- log_amount (donation_total a - bonus_total a) ;;
  Ok a.

(** Lines 542-544: one [Payout] row per user. *)
Fixpoint payout_rows (block : Block) (user_shares : dict) (a : Adjust)
  (items : dict) : res (list Payout) :=
  match items with
  | [] => Ok []
  | (user, amount) :: rest =>
      sc <- dict_item user user_shares ;;
      pc <- dict_item user (user_perc a) ;;
      let applied :=
        match dict_get user (user_perc_applied a) with
        | Some v => v
        | None => 0
        end in
      rows <- payout_rows block user_shares a rest ;;
      Ok (mkPayout user amount (b_hash block) sc pc applied :: rows)
  end.

(** Lines 546-548 on the row of [block] *)
Definition mark_processed (block : Block) (donated bonus : Z) (b : Block) : Block :=
  if String.eqb (b_hash b) (b_hash block) then
    {| b_hash := b_hash b; b_height := b_height b; b_bits := b_bits b;
       b_total_value := b_total_value b; b_user := b_user b;
       b_last_share_id := b_last_share_id b; b_merged := b_merged b;
       b_mature := b_mature b; b_orphan := b_orphan b;
       b_processed := true; b_donated := donated; b_bonus_payed := bonus |}
  else b.

Definition add_bonus_payout (r : BonusPayout) (db : DB) : DB :=
  {| shares := shares db; blocks := blocks db; payouts := payouts db;
     bonus_payouts := bonus_payouts db ++ [r];
     donation_percents := donation_percents db |}.

(** Lines 541-566: what the session holds when it commits. *)
Definition commit (env : Env) (db : DB) (block : Block) (user_shares : dict)
  (a : Adjust) : res DB :=
  rows <- payout_rows block user_shares a (user_payouts a) ;;
  let db :=
    {| shares := shares db;
       blocks := map (mark_processed block (donation_total a) (bonus_total a))
                   (blocks db);
       payouts := payouts db ++ rows;
       bonus_payouts := bonus_payouts db;
       donation_percents := donation_percents db |} in
  db <- (if donation_total a >? 0 then
           match donate_address (config env) with
           | None => Raise KeyError
           | Some addr =>
               _ <- log_amount (donation_total a) ;;
               Ok (add_bonus_payout
                     (mkBonusPayout addr (donation_total a)
                        (TotalDonations (b_height block)) (b_hash block)) db)
           end
         else Ok db) ;;
  let block_bonus := config_get (block_bonus (config env)) 0 in
  if block_bonus >? 0 then
    _ <- log_amount block_bonus ;;
    Ok (add_bonus_payout
          (mkBonusPayout (b_user block) block_bonus
             (BlockfinderBonus (b_height block)) (b_hash block)) db)
  else Ok db.

(** Lines 525-566: the two assertions, then rollback (simulate) or commit.
    [db] is the database as the task found it. *)
Definition finish (env : Env) (simulate : bool) (db : DB) (block : Block)
  (user_shares : dict) (accrued : Z) (a : Adjust) : res DB :=
  if negb (accrued =? b_total_value block) then Raise AssertionError
  else
    let user_sum := zsum (values (user_payouts a)) in
    if negb (user_sum =? b_total_value block + bonus_total a - donation_total a)
    then Raise AssertionError
    else if simulate then
      _ <- log_amounts (values (user_payouts a)) ;;
      Ok db
    else commit env db block user_shares a.

(** Lines 423-523: the locals the assertions look at, with the payouts as
    they stood before the donation and bonus pass. *)
Record Locals : Type := mkLocals {
  l_user_shares : dict;
  l_raw_payouts : dict;
  l_accrued : Z;
  l_adjust : Adjust
}.

Definition payout_locals (fuel : nat) (env : Env) (db : DB) (block : Block)
  : res Locals :=
  '(user_shares, total_shares) <- count_shares env db block ;;
  '(payouts_in, accrued) <-
     distribute fuel (b_total_value block) total_shares user_shares ;;
  a <- adjust_all env db user_shares payouts_in ;;
  Ok (mkLocals user_shares payouts_in accrued a).

(** The body of [payout] inside [try]. *)
Definition payout_body (fuel : nat) (env : Env) (simulate : bool) (db : DB)
  : res DB :=
  match select_block db with
  | None => Ok db
  | Some block =>
      l <- payout_locals fuel env db block ;;
      finish env simulate db block (l_user_shares l) (l_accrued l) (l_adjust l)
  end.

(** The task: an exception is logged, the session rolled back and the task
    retried. *)
Definition payout (fuel : nat) (env : Env) (simulate : bool) (db : DB)
  : outcome * DB :=
  run_task db (payout_body fuel env simulate db).

(** [n] runs of the task, each on the database the previous one left *)
Fixpoint payout_runs (n : nat) (fuel : nat) (env : Env) (simulate : bool)
  (db : DB) : DB :=
  match n with
  | O => db
  | S n => payout_runs n fuel env simulate (snd (payout fuel env simulate db))
  end.

(** The exact donation and bonus of the specification:
    [ceil(percent/100 * payout)] and [floor(|percent|/100 * payout)] over
    the rationals. *)
Definition exact_donation (percent payout : Z) : Z :=
  Qceiling (inject_Z percent / inject_Z 100 * inject_Z payout)%Q.

Definition exact_bonus (percent payout : Z) : Z :=
  Qfloor (inject_Z (Z.abs percent) / inject_Z 100 * inject_Z payout)%Q.

(* ================================================================== *)
(** ** The [cleanup] task *)

Definition f1100 : spec_float := PyFloat.of_Z 1100.

(** Lines 349-350: the cached average is read and then replaced by the
    literal [1100.0]. *)
Definition cleanup_diff (cached : option spec_float) : option spec_float :=
  let diff := cached in
  let diff := Some f1100 in
  diff.

(** Line 356 *)
Definition unproc_blocks (db : DB) : Z :=
  Z.of_nat (List.length (filter unprocessed (blocks db))).

(** Lines 358-362:
    [int(round(((float(diff) * (2 ** 16)) * (cleanup_n + unproc_n))))] *)
Definition cleanup_total_shares (cfg : Config) (diff : spec_float)
  (unproc_blocks : Z) : res Z :=
  let unproc_n := unproc_blocks * last_n cfg in
  let cleanup_n := config_get (cleanup_n cfg) 4 + last_n cfg in
  fn <- PyFloat.float_of_int (cleanup_n + unproc_n) ;;
  PyFloat.int_round
    (PyFloat.fmul (PyFloat.fmul diff (PyFloat.of_Z (2 ^ 16))) fn).

(** Lines 363-379: the id at which the running count reaches
    [total_shares], or 0. *)
Fixpoint find_stale (rows : list Share) (counted_shares total_shares : Z) : Z :=
  match rows with
  | [] => 0
  | r :: rest =>
      let counted_shares := counted_shares + s_shares r in
      if counted_shares >=? total_shares then s_id r
      else find_stale rest counted_shares total_shares
  end.

(** Line 394 on one row; a null cursor never satisfies [<=]. *)
Definition clear_cursor (stale_id : Z) (b : Block) : Block :=
  match b_last_share_id b with
  | None => b
  | Some c =>
      if c <=? stale_id then
        {| b_hash := b_hash b; b_height := b_height b; b_bits := b_bits b;
           b_total_value := b_total_value b; b_user := b_user b;
           b_last_share_id := None; b_merged := b_merged b;
           b_mature := b_mature b; b_orphan := b_orphan b;
           b_processed := b_processed b; b_donated := b_donated b;
           b_bonus_payed := b_bonus_payed b |}
      else b
  end.

(** The id the run settles on: [Some stale_id] when it goes on to delete,
    [None] when it returns early or raises. *)
Definition cleanup_stale_id (cfg : Config) (cached : option spec_float)
  (db : DB) : option Z :=
  match cleanup_diff cached with
  | None => None
  | Some diff =>
      match cleanup_total_shares cfg diff (unproc_blocks db) with
      | Ok total_shares =>
          let stale_id := find_stale (ledger_rows None (shares db)) 0 total_shares in
          if stale_id =? 0 then None else Some stale_id
      | _ => None
      end
  end.

Definition cleanup_body (cfg : Config) (cached : option spec_float)
  (simulate : bool) (db : DB) : res DB :=
  match cleanup_diff cached with
  | None => Ok db
  | Some diff =>
      total_shares <- cleanup_total_shares cfg diff (unproc_blocks db) ;;
      let stale_id := find_stale (ledger_rows None (shares db)) 0 total_shares in
      if stale_id =? 0 then Ok db
      else if simulate then Ok db
      else
        Ok {| shares := filter (fun s => negb (s_id s <? stale_id)) (shares db);
              blocks := map (clear_cursor stale_id) (blocks db);
              payouts := payouts db;
              bonus_payouts := bonus_payouts db;
              donation_percents := donation_percents db |}
  end.

Definition cleanup (cfg : Config) (cached : option spec_float)
  (simulate : bool) (db : DB) : outcome * DB :=
  run_task db (cleanup_body cfg cached simulate db).

(** The budget of the specification:
    [average_difficulty * 2^16 * (unprocessed_n + safety_margin_n)]. *)
Definition spec_budget (cfg : Config) (average_difficulty : Z) (db : DB) : Z :=
  let unprocessed_n := unproc_blocks db * last_n cfg in
  let safety_margin_n := config_get (cleanup_n cfg) 4 + last_n cfg in
  average_difficulty * 2 ^ 16 * (unprocessed_n + safety_margin_n).

(** Every cursor that is set points to a row of the ledger. *)
Definition cursors_resolve (db : DB) : Prop :=
  forall b c, In b (blocks db) -> b_last_share_id b = Some c ->
    exists s, In s (shares db) /\ s_id s = c.

(* ================================================================== *)
(** ** Python numbers *)

(** [x + y] on floats *)
Definition fadd : spec_float -> spec_float -> spec_float :=
  SFadd PyFloat.prec PyFloat.emax.

(** [int(f)] of a float: towards zero *)
Definition float_trunc (f : spec_float) : res Z :=
  match f with
  | S754_zero _ => Ok 0
  | S754_finite s m e =>
      let v := PyFloat.signed s m in
      Ok (if 0 <=? e then v * 2 ^ e else Z.quot v (2 ^ (- e)))
  | S754_infinity _ => Raise OverflowError
  | S754_nan => Raise ValueError
  end.

(** A number as JSON gives it: an int or a float *)
Inductive num : Type :=
| NInt (z : Z)
| NFloat (f : spec_float).

(** The float of a number where an operation mixes the two kinds *)
Definition num_float (x : num) : res spec_float :=
  match x with
  | NInt z => PyFloat.float_of_int z
  | NFloat f => Ok f
  end.

(** [x + y] *)
Definition num_add (x y : num) : res num :=
  match x, y with
  | NInt a, NInt b => Ok (NInt (a + b))
  | _, _ =>
      fx <- num_float x ;;
      fy <- num_float y ;;
      Ok (NFloat (fadd fx fy))
  end.

(** [x * y] *)
Definition num_mul (x y : num) : res num :=
  match x, y with
  | NInt a, NInt b => Ok (NInt (a * b))
  | _, _ =>
      fx <- num_float x ;;
      fy <- num_float y ;;
      Ok (NFloat (PyFloat.fmul fx fy))
  end.

Fixpoint num_sum_from (acc : num) (l : list num) : res num :=
  match l with
  | [] => Ok acc
  | x :: rest => s <- num_add acc x ;; num_sum_from s rest
  end.

(** [sum(l)], which starts from the int 0 *)
Definition num_sum (l : list num) : res num := num_sum_from (NInt 0) l.

(** [int(x)] *)
Definition num_int (x : num) : res Z :=
  match x with
  | NInt z => Ok z
  | NFloat f => float_trunc f
  end.

(** An int against a float, compared by value as Python does; [None] when
    the float is not a number *)
Definition int_float_compare (z : Z) (f : spec_float) : option comparison :=
  match f with
  | S754_zero _ => Some (z ?= 0)
  | S754_finite s m e =>
      let v := PyFloat.signed s m in
      Some (if 0 <=? e then z ?= v * 2 ^ e else z * 2 ^ (- e) ?= v)
  | S754_infinity s => Some (if s then Gt else Lt)
  | S754_nan => None
  end.

Definition num_compare (x y : num) : option comparison :=
  match x, y with
  | NInt a, NInt b => Some (a ?= b)
  | NInt a, NFloat g => int_float_compare a g
  | NFloat f, NInt b => option_map CompOpp (int_float_compare b f)
  | NFloat f, NFloat g => SFcompare f g
  end.

(** [x >= y], [x <= y], [x > y], [x < y] *)
Definition num_ge (x y : num) : bool :=
  match num_compare x y with
  | Some Gt | Some Eq => true
  | _ => false
  end.

Definition num_le (x y : num) : bool :=
  match num_compare x y with
  | Some Lt | Some Eq => true
  | _ => false
  end.

Definition num_gt (x y : num) : bool :=
  match num_compare x y with
  | Some Gt => true
  | _ => false
  end.

Definition num_lt (x y : num) : bool :=
  match num_compare x y with
  | Some Lt => true
  | _ => false
  end.

(* ================================================================== *)
(** ** The threshold branch of [agent_receive] *)

Module Monitor.

Record Threshold : Type := mkThreshold {
  temp_thresh : option num;
  hashrate_thresh : option num;
  offline_thresh : option Z;
  green_notif : bool;
  temp_err : bool;
  hashrate_err : bool;
  offline_err : bool
}.

Inductive flag : Type := TempErr | HashrateErr | OfflineErr.

Inductive notification : Type :=
| Problem (f : flag)
| Resolved (f : flag).

Definition get_flag (t : Threshold) (f : flag) : bool :=
  match f with
  | TempErr => temp_err t
  | HashrateErr => hashrate_err t
  | OfflineErr => offline_err t
  end.

Definition set_flag (t : Threshold) (f : flag) (val : bool) : Threshold :=
  {| temp_thresh := temp_thresh t;
     hashrate_thresh := hashrate_thresh t;
     offline_thresh := offline_thresh t;
     green_notif := green_notif t;
     temp_err := match f with TempErr => val | _ => temp_err t end;
     hashrate_err := match f with HashrateErr => val | _ => hashrate_err t end;
     offline_err := match f with OfflineErr => val | _ => offline_err t end |}.

(** Modelled from the spec: [Threshold.report_condition] is defined in
    simplecoin/models.py, which is not among the sources.  Section 4.6:
    a transition emits exactly one notification ("problem" on false to
    true, "resolved" on true to false) and sets or clears the
    corresponding flag. *)
Definition report_condition (t : Threshold) (f : flag) (val : bool)
  : Threshold * list notification :=
  (set_flag t f val, [if val then Problem f else Resolved f]).

(** [value >= thresh.temp_thresh]; in Python 2 every number is [>= None]. *)
Definition ge_thresh (value : num) (thresh : option num) : bool :=
  match thresh with
  | None => true
  | Some x => num_ge value x
  end.

(** [hr <= thresh.hashrate_thresh]; in Python 2 no number is [<= None]. *)
Definition le_thresh (hr : num) (thresh : option num) : bool :=
  match thresh with
  | None => false
  | Some x => num_le hr x
  end.

(** Lines 676-681: the cards at or over the threshold, with their index. *)
Fixpoint overheat_cards (thresh : option Threshold) (i : nat)
  (payload : list num) : list (nat * num) :=
  match payload with
  | [] => []
  | value :: rest =>
      let hot :=
        match thresh with
        | None => false
        | Some t => ge_thresh value (temp_thresh t)
        end in
      if hot then (i, value) :: overheat_cards thresh (S i) rest
      else overheat_cards thresh (S i) rest
  end.

Definition nonempty {A : Type} (l : list A) : bool :=
  match l with
  | [] => false
  | _ :: _ => true
  end.

(** The telemetry messages that reach line 671; the payload is a list of
    JSON numbers, temperatures or megahashes per second. *)
Inductive sample : Type :=
| Temp (payload : list num)
| Hashrate (payload : list num).

(** Line 702: [hr = sum(payload) * 1000] *)
Definition kilohash (payload : list num) : res num :=
  s <- num_sum payload ;;
  num_mul s (NInt 1000).

(** Lines 702-703: [hr] and [int(hr)] *)
Definition hashrate_of (payload : list num) : res (num * Z) :=
  hr <- kilohash payload ;;
  i <- num_int hr ;;
  Ok (hr, i).

(** Lines 671-714, on the threshold row loaded for (worker, address):
    the row as the commit leaves it and the notifications sent.  An
    exception is logged and the session rolled back. *)
Definition agent_receive (thresh : option Threshold) (m : sample)
  : option Threshold * list notification :=
  match m with
  | Temp payload =>
      let cards := overheat_cards thresh 0 payload in
      match thresh with
      | None => (None, [])
      | Some t =>
          if nonempty cards && negb (temp_err t) then
            let '(t', out) := report_condition t TempErr true in (Some t', out)
          else if negb (nonempty cards) && temp_err t then
            let '(t', out) := report_condition t TempErr false in (Some t', out)
          else (Some t, [])
      end
  | Hashrate payload =>
      match thresh with
      | None => (None, [])
      | Some t =>
          match hashrate_of payload with
          | Ok (hr, i) =>
              if i =? 0 then (Some t, [])
              else
                let low_hash := le_thresh hr (hashrate_thresh t) in
                if low_hash && negb (hashrate_err t) then
                  let '(t', out) := report_condition t HashrateErr true in
                  (Some t', out)
                else if negb low_hash && hashrate_err t then
                  let '(t', out) := report_condition t HashrateErr false in
                  (Some t', out)
                else (Some t, [])
          | _ => (Some t, [])
          end
      end
  end.

(** A stream of messages for one (worker, address) *)
Fixpoint receive_all (thresh : option Threshold) (ms : list sample)
  : option Threshold * list notification :=
  match ms with
  | [] => (thresh, [])
  | m :: rest =>
      let '(thresh', out) := agent_receive thresh m in
      let '(thresh'', out') := receive_all thresh' rest in
      (thresh'', (out ++ out')%list)
  end.

(** The violation state of a sample as the code evaluates it *)
Definition temp_violation (t : Threshold) (payload : list num) : bool :=
  existsb (fun value => ge_thresh value (temp_thresh t)) payload.

Definition hashrate_violation (t : Threshold) (payload : list num) : bool :=
  match kilohash payload with
  | Ok hr => le_thresh hr (hashrate_thresh t)
  | _ => false
  end.

(** The violation state of the specification: some device over
    [temp_thresh]; the summed hashrate under [hashrate_thresh]. *)
Definition spec_temp_violation (t : Threshold) (payload : list num) : bool :=
  match temp_thresh t with
  | None => false
  | Some x => existsb (fun value => num_gt value x) payload
  end.

Definition spec_hashrate_violation (t : Threshold) (payload : list num) : bool :=
  match hashrate_thresh t, kilohash payload with
  | Some x, Ok hr => num_lt hr x
  | _, _ => false
  end.

(** What one message does to a row, by the state of the sample and of
    the flag *)
Definition transition (t : Threshold) (f : flag) (violating : bool)
  : option Threshold * list notification :=
  if violating && negb (get_flag t f) then
    (Some (set_flag t f true), [Problem f])
  else if negb violating && get_flag t f then
    (Some (set_flag t f false), [Resolved f])
  else (Some t, []).

(** A hashrate sample the code does not evaluate: [int(hr)] is 0, or
    [hr] or [int(hr)] raises. *)
Definition skipped (payload : list num) : bool :=
  match hashrate_of payload with
  | Ok (_, i) => i =? 0
  | _ => true
  end.

(** The samples the statement below is about: a temperature sample for a
    row whose [temp_thresh] is set, and a hashrate sample that is not
    skipped. *)
Definition evaluated (t : Threshold) (m : sample) : bool :=
  match m with
  | Temp _ =>
      match temp_thresh t with
      | Some _ => true
      | None => false
      end
  | Hashrate payload => negb (skipped payload)
  end.

Definition flag_of (m : sample) : flag :=
  match m with
  | Temp _ => TempErr
  | Hashrate _ => HashrateErr
  end.

Definition violating (t : Threshold) (m : sample) : bool :=
  match m with
  | Temp payload => temp_violation t payload
  | Hashrate payload => hashrate_violation t payload
  end.

Definition thresh_example : Threshold :=
  mkThreshold (Some (NInt 80)) (Some (NInt 500)) None true false false false.

(** 0.0003 and 0.5 megahashes per second *)
Definition reading_small : num :=
  NFloat (PyFloat.fdiv (PyFloat.of_Z 3) (PyFloat.of_Z 10000)).

Definition reading_half : num :=
  NFloat (PyFloat.fdiv (PyFloat.of_Z 1) (PyFloat.of_Z 2)).

End Monitor.

(* ================================================================== *)
(** ** Auxiliary notions and sample data *)

(** A step that does not run out of fuel *)
Definition comes_back {A : Type} (m : res A) : Prop := m <> NoFuel.

Definition ledger_example : list Share :=
  [mkShare 1 "B" 50; mkShare 2 "A" 100].

Definition env_example : Env :=
  mkEnv (mkConfig 2 None None None (Some "pool")) (fun bits => bits).

Definition block_example : Block :=
  mkBlock "h10" 10 60 1000 "A" (Some 3) false false false false 0 0.

Definition db_example : DB :=
  mkDB [mkShare 1 "A" 50; mkShare 2 "B" 40; mkShare 3 "A" 30; mkShare 4 "C" 70]
       [block_example] [] [] [("A", 7); ("B", -50)].

Definition db_null_cursor : DB :=
  mkDB [mkShare 1 "A" 50]
       [mkBlock "h11" 11 60 1000 "A" None false true false false 0 0] [] [] [].

Definition orphan_block : Block :=
  mkBlock "h12" 12 60 1000 "A" (Some 1) false false true false 0 0.

Definition db_orphan : DB :=
  mkDB [mkShare 1 "A" 50] [orphan_block] [] [] [].

Definition env_seven : Env :=
  mkEnv (mkConfig 2 (Some 7) None None (Some "pool")) (fun bits => bits).

Definition db_seven : DB :=
  mkDB [mkShare 1 "A" 50]
       [mkBlock "h13" 13 60 100 "A" (Some 1) false true false false 0 0] [] [] [].

Definition cfg_example : Config := mkConfig 2 None None None (Some "pool").

Definition pending_block : Block :=
  mkBlock "h14" 14 60 1000 "A" (Some 1) false false false false 0 0.

Definition db_cleanup : DB :=
  mkDB [mkShare 1 "A" 10; mkShare 2 "B" 600000000] [pending_block] [] [] [].

(* ================================================================== *)
(** ** Further notions: lookups, per-user amounts, ordered ledgers *)

(** [d.get(k, 0)] *)
Definition get0 (k : string) (d : dict) : Z :=
  match dict_get k d with
  | Some v => v
  | None => 0
  end.

(** What a user submitted in a list of rows *)
Definition user_amount (u : string) (rows : list Share) : Z :=
  total_amount (filter (fun s => String.eqb (s_user s) u) rows).

(** Rows in descending order of id *)
Fixpoint id_desc (rows : list Share) : Prop :=
  match rows with
  | [] => True
  | r :: rest => Forall (fun s => s_id s <= s_id r) rest /\ id_desc rest
  end.

(** What a [Payout] row says of the item of [user_shares] and of the final
    item of [user_payouts] it was made from *)
Definition row_of (block : Block) (user_shares : dict) (a : Adjust)
  (item : string * Z) (r : Payout) : Prop :=
  p_user r = fst item /\ p_amount r = snd item
  /\ p_block r = b_hash block
  /\ dict_get (fst item) user_shares = Some (p_shares r)
  /\ dict_get (fst item) (user_perc a) = Some (p_perc r)
  /\ p_perc_applied r = get0 (fst item) (user_perc_applied a).

(* ================================================================== *)
(** ** The coin node and the tasks that poll it *)

(** An answer of the node, or [CoinRPCException] *)
Inductive rpc (A : Type) : Type :=
| Answer (a : A)
| CoinRPCException.

Arguments Answer {A} a.
Arguments CoinRPCException {A}.

(** The node as the tasks use it.  [getblock] and [gettransaction] answer
    with a dict of which only ['confirmations'] is read; [None] is a dict
    without that key. *)
Record Node : Type := mkNode {
  getblockcount : rpc Z;
  getblock : string -> rpc (option Z);
  gettransaction : string -> rpc (option Z)
}.

(** What escapes the loop of [update_block_state] and reaches the handler
    that rolls back and retries *)
Inductive poll_exn : Type :=
| NodeFailure
| NoConfirmations.

Definition set_mature (b : Block) : Block :=
  {| b_hash := b_hash b; b_height := b_height b; b_bits := b_bits b;
     b_total_value := b_total_value b; b_user := b_user b;
     b_last_share_id := b_last_share_id b; b_merged := b_merged b;
     b_mature := true; b_orphan := b_orphan b;
     b_processed := b_processed b; b_donated := b_donated b;
     b_bonus_payed := b_bonus_payed b |}.

Definition set_orphan (b : Block) : Block :=
  {| b_hash := b_hash b; b_height := b_height b; b_bits := b_bits b;
     b_total_value := b_total_value b; b_user := b_user b;
     b_last_share_id := b_last_share_id b; b_merged := b_merged b;
     b_mature := b_mature b; b_orphan := true;
     b_processed := b_processed b; b_donated := b_donated b;
     b_bonus_payed := b_bonus_payed b |}.

(** [filter_by(mature=False, orphan=False)] *)
Definition pending (b : Block) : bool := negb (b_mature b) && negb (b_orphan b).

(** Lines 160-179: one block of the loop.  The debug line reads
    [output['confirmations']] before anything else is done. *)
Definition check_block (mature_diff blockheight : Z) (node : Node)
  (block : Block) : poll_exn + Block :=
  match getblock node (b_hash block) with
  | CoinRPCException => inr (set_orphan block)
  | Answer None => inl NoConfirmations
  | Answer (Some confirmations) =>
      if confirmations >? mature_diff then inr (set_mature block)
      else if (blockheight - b_height block >? mature_diff)
              && (confirmations <? mature_diff)
      then inr (set_orphan block)
      else inr block
  end.

(** Lines 157-179 over the table: the blocks the query does not return
    stay as they are. *)
Fixpoint check_blocks (mature_diff blockheight : Z) (node : Node)
  (bs : list Block) : poll_exn + list Block :=
  match bs with
  | [] => inr []
  | b :: rest =>
      match (if pending b then check_block mature_diff blockheight node b
             else inr b) with
      | inl e => inl e
      | inr b' =>
          match check_blocks mature_diff blockheight node rest with
          | inl e => inl e
          | inr rest' => inr (b' :: rest')
          end
      end
  end.

(** The task [update_block_state]: [None] when it committed, the exception
    when it rolled back and asked for a retry. *)
Definition update_block_state (mature_diff : Z) (node : Node) (db : DB)
  : option poll_exn * DB :=
  match getblockcount node with
  | CoinRPCException => (Some NodeFailure, db)
  | Answer blockheight =>
      match check_blocks mature_diff blockheight node (blocks db) with
      | inl e => (Some e, db)
      | inr bs =>
          (None,
           {| shares := shares db; blocks := bs; payouts := payouts db;
              bonus_payouts := bonus_payouts db;
              donation_percents := donation_percents db |})
      end
  end.

(** What the poll may do to a row: everything but the two flags is kept,
    a flag that is set stays set, a row that was mature or orphan is kept
    whole, and a pending row gets at most one of the flags. *)
Definition lifecycle_step (b b' : Block) : Prop :=
  set_mature (set_orphan b') = set_mature (set_orphan b)
  /\ (pending b = false -> b' = b)
  /\ (pending b = true -> b' = b \/ b' = set_mature b \/ b' = set_orphan b).

Record Transaction : Type := mkTransaction {
  t_txid : string;
  t_confirmed : bool
}.

Definition set_confirmed (v : bool) (tx : Transaction) : Transaction :=
  {| t_txid := t_txid tx; t_confirmed := v |}.

(** The confirmations the node reports for a transaction:
    [t.get('confirmations', 0)], when the node knows it. *)
Definition reported (node : Node) (txid : string) : option Z :=
  match gettransaction node txid with
  | CoinRPCException => None
  | Answer t => Some (config_get t 0)
  end.

(** Lines 130-140 of [update_coin_transaction]; the task always commits. *)
Definition update_coin_transaction (node : Node) (txs : list Transaction)
  : list Transaction :=
  map (fun tx =>
         if t_confirmed tx then tx
         else
           match gettransaction node (t_txid tx) with
           | CoinRPCException => set_confirmed false tx
           | Answer t =>
               if config_get t 0 >=? 6 then set_confirmed true tx else tx
           end) txs.

(* ================================================================== *)
(** ** Caches and minute counters *)

(** [d.setdefault(k, v)] *)
Fixpoint dict_setdefault (k : string) (v : Z) (d : dict) : dict :=
  match d with
  | [] => [(k, v)]
  | (k', x) :: t =>
      if String.eqb k k' then (k', x) :: t else (k', x) :: dict_setdefault k v t
  end.

(** Lines 109-116 of [cache_user_donation]: the dict put in the cache.
    [current_app.config['default_perc']] is read for every row. *)
Fixpoint user_donations (default_perc : option Z) (custom_donations : dict)
  (acc : dict) : res dict :=
  match custom_donations with
  | [] => Ok acc
  | (user, perc) :: rest =>
      match default_perc with
      | None => Raise KeyError
      | Some default =>
          user_donations default_perc rest
            (dict_set user perc (dict_setdefault user default acc))
      end
  end.

Definition cache_user_donation (default_perc : option Z)
  (custom_donations : dict) : res dict :=
  user_donations default_perc custom_donations [].

Inductive minute_type : Type := OneMinuteShare | OneMinuteReject.

(** A call [count_share(typ, amount, user_)] *)
Record count_call : Type := mkCall {
  cc_typ : minute_type;
  cc_user : string;
  cc_amount : Z
}.

Definition call_if (typ : minute_type) (user_ : string) (amount : Z)
  : list count_call :=
  if amount =? 0 then [] else [mkCall typ user_ amount].

(** Lines 274-292 of [add_one_minute]: the calls of [count_share], in
    order. *)
Definition add_one_minute (user : string)
  (valid_shares dup_shares low_diff_shares stale_shares : Z) : list count_call :=
  (call_if OneMinuteShare user valid_shares
   ++ (if String.eqb user "pool" then
         call_if OneMinuteReject "pool_low_diff" low_diff_shares
         ++ call_if OneMinuteReject "pool_dup" dup_shares
         ++ call_if OneMinuteReject "pool_stale" stale_shares
       else
         let total_reject := dup_shares + low_diff_shares + stale_shares in
         call_if OneMinuteReject user total_reject))%list.

Definition is_reject (c : count_call) : bool :=
  match cc_typ c with
  | OneMinuteReject => true
  | OneMinuteShare => false
  end.

(** The keys [new_block] keeps in the cache *)
Record Cache : Type := mkCache {
  c_blockheight : option Z;
  c_difficulty : option spec_float;
  c_reward : option Z;
  c_block_cache : list Z;
  c_difficulty_avg : option spec_float
}.

(** [sum(l)] of floats, which starts from the int 0 *)
Definition float_sum (l : list spec_float) : spec_float :=
  fold_left fadd l (PyFloat.of_Z 0).

(** Lines 306-323 of [new_block]: the cache part.  [bits_to_difficulty] is
    a function of cryptokit, taken as a parameter; [lpush] then
    [ltrim 0 500] keeps the first 501 entries.  The keys are taken as
    present: their time-to-live is not modelled. *)
Definition new_block (bits_to_difficulty : Z -> spec_float)
  (blockheight bits : Z) (reward : option Z) (c : Cache) : Cache :=
  let last_blockheight :=
    match c_blockheight c with
    | None => 0
    | Some h => if h =? 0 then 0 else h
    end in
  if blockheight =? last_blockheight then c
  else
    let block_cache := firstn 501 (bits :: c_block_cache c) in
    let diff_list := block_cache in
    let total_diffs := float_sum (map bits_to_difficulty diff_list) in
    {| c_blockheight := Some blockheight;
       c_difficulty := Some (bits_to_difficulty bits);
       c_reward := reward;
       c_block_cache := block_cache;
       c_difficulty_avg :=
         Some (PyFloat.fdiv total_diffs
                 (PyFloat.of_Z (Z.of_nat (List.length diff_list)))) |}.

(* ================================================================== *)
(** ** Worker status and the offline check *)

(** A row of [Status]; [st_status] is [json.dumps(payload)], times are in
    seconds. *)
Record Status : Type := mkStatus {
  st_user : string;
  st_worker : string;
  st_status : string;
  st_time : Z
}.

(** [filter_by(user=user, worker=worker)] *)
Definition same_worker (user worker : string) (s : Status) : bool :=
  String.eqb (st_user s) user && String.eqb (st_worker s) worker.

(** Lines 658-667 of [agent_receive], [typ == 'status']: update the rows
    of the worker, or add one when the update affected nothing. *)
Definition agent_receive_status (address worker status : string) (dt : Z)
  (tbl : list Status) : list Status :=
  let ret := List.length (filter (same_worker address worker) tbl) in
  let updated :=
    map (fun s =>
           if same_worker address worker s
           then mkStatus (st_user s) (st_worker s) status dt
           else s) tbl in
  if (ret =? 0)%nat then (updated ++ [mkStatus address worker status dt])%list
  else updated.

(** A row of [Threshold] with its key *)
Record ThresholdRow : Type := mkThresholdRow {
  tr_user : string;
  tr_worker : string;
  tr_thresh : Monitor.Threshold
}.

(** [int((now - last.time).total_seconds() / 60)] *)
Definition minutes_since (now t : Z) : res Z :=
  seconds <- PyFloat.float_of_int (now - t) ;;
  float_trunc (PyFloat.fdiv seconds (PyFloat.of_Z 60)).

(** Lines 732-747 of [check_down] on one threshold row; a row without
    [offline_thresh] is not returned by the query. *)
Definition check_row (now : Z) (statuses : list Status) (r : ThresholdRow)
  : res (ThresholdRow * list Monitor.notification) :=
  match Monitor.offline_thresh (tr_thresh r) with
  | None => Ok (r, [])
  | Some limit =>
      match find (same_worker (tr_user r) (tr_worker r)) statuses with
      | None => Ok (r, [])
      | Some last =>
          diff <- minutes_since now (st_time last) ;;
          let t := tr_thresh r in
          if negb (Monitor.offline_err t) && (diff >? limit) then
            let '(t', out) :=
              Monitor.report_condition t Monitor.OfflineErr true in
            Ok (mkThresholdRow (tr_user r) (tr_worker r) t', out)
          else if Monitor.offline_err t && (diff <=? limit) then
            let '(t', out) :=
              Monitor.report_condition t Monitor.OfflineErr false in
            Ok (mkThresholdRow (tr_user r) (tr_worker r) t', out)
          else Ok (r, [])
      end
  end.

(** The loop of [check_down]: the rows as the session holds them, and the
    notifications sent so far, which a later exception does not take
    back. *)
Fixpoint check_rows (now : Z) (statuses : list Status)
  (rows : list ThresholdRow)
  : res (list ThresholdRow) * list Monitor.notification :=
  match rows with
  | [] => (Ok [], [])
  | r :: rest =>
      match check_row now statuses r with
      | Ok (r', out) =>
          let '(rest', out') := check_rows now statuses rest in
          (match rest' with
           | Ok rs => Ok (r' :: rs)
           | Raise e => Raise e
           | NoFuel => NoFuel
           end, (out ++ out')%list)
      | Raise e => (Raise e, [])
      | NoFuel => (NoFuel, [])
      end
  end.

(** The task [check_down]: an exception is logged and the session rolled
    back, without a retry. *)
Definition check_down (now : Z) (statuses : list Status)
  (rows : list ThresholdRow)
  : bool * list ThresholdRow * list Monitor.notification :=
  match check_rows now statuses rows with
  | (Ok rows', out) => (true, rows', out)
  | (_, out) => (false, rows, out)
  end.

(* ================================================================== *)
(** * Properties *)

(** ** Dicts and sums *)

Lemma zsum_app (l1 l2 : list Z) : zsum (l1 ++ l2) = zsum l1 + zsum l2.
Proof.
  induction l1 as [|x l1 IH]; simpl; [reflexivity | rewrite IH; lia].
Qed.

Lemma zsum_dict_add (k : string) (v : Z) (d : dict) :
  zsum (values (dict_add k v d)) = zsum (values d) + v.
Proof.
  induction d as [|[k' x] d IH]; simpl.
  - lia.
  - destruct (String.eqb k k'); simpl; [lia | rewrite IH; lia].
Qed.

Lemma keys_dict_add (k : string) (v : Z) (d : dict) :
  keys (dict_add k v d) = if existsb (String.eqb k) (keys d) then keys d
                          else (keys d ++ [k])%list.
Proof.
  induction d as [|[k' x] d IH]; simpl.
  - reflexivity.
  - destruct (String.eqb k k') eqn:E; simpl; [reflexivity |].
    rewrite IH. destruct (existsb (String.eqb k) (keys d)); reflexivity.
Qed.

Lemma existsb_eqb_In (k : string) (l : list string) :
  existsb (String.eqb k) l = true <-> In k l.
Proof.
  rewrite existsb_exists. split.
  - intros [x [Hx E]]. apply String.eqb_eq in E. now subst.
  - intros H. exists k. split; [assumption | apply String.eqb_refl].
Qed.

Lemma NoDup_keys_dict_add (k : string) (v : Z) (d : dict) :
  NoDup (keys d) -> NoDup (keys (dict_add k v d)).
Proof.
  intros H. rewrite keys_dict_add.
  destruct (existsb (String.eqb k) (keys d)) eqn:E; [assumption |].
  apply NoDup_app; [assumption | repeat constructor; intros [] | ].
  intros x Hx [<- | []].
  apply existsb_eqb_In in Hx. congruence.
Qed.

Lemma dict_add_nonempty (k : string) (v : Z) (d : dict) : dict_add k v d <> [].
Proof.
  destruct d as [|[k' x] d]; simpl; [discriminate |].
  destruct (String.eqb k k'); discriminate.
Qed.

(** ** The window walk *)

Lemma total_amount_insert_desc (s : Share) (l : list Share) :
  total_amount (insert_desc s l) = s_shares s + total_amount l.
Proof.
  unfold total_amount.
  induction l as [|h t IH]; simpl; [reflexivity |].
  destruct (s_id h <=? s_id s); simpl; [reflexivity | rewrite IH; lia].
Qed.

Lemma total_amount_order_by (l : list Share) :
  total_amount (order_by_id_desc l) = total_amount l.
Proof.
  induction l as [|h t IH]; simpl; [reflexivity |].
  rewrite total_amount_insert_desc, IH. reflexivity.
Qed.

Lemma total_amount_ledger_rows (c : option Z) (tbl : list Share) :
  total_amount (ledger_rows c tbl) = available c tbl.
Proof.
  destruct c; simpl; apply total_amount_order_by.
Qed.

Lemma In_insert_desc (x s : Share) (l : list Share) :
  In x (insert_desc s l) <-> x = s \/ In x l.
Proof.
  induction l as [|h t IH]; simpl.
  - intuition.
  - destruct (s_id h <=? s_id s); simpl; [intuition | rewrite IH; intuition].
Qed.

Lemma In_order_by (x : Share) (l : list Share) :
  In x (order_by_id_desc l) <-> In x l.
Proof.
  induction l as [|h t IH]; simpl; [reflexivity |].
  rewrite In_insert_desc, IH. intuition.
Qed.

Lemma In_ledger_rows (x : Share) (c : option Z) (tbl : list Share) :
  In x (ledger_rows c tbl) -> In x tbl.
Proof.
  destruct c; simpl; rewrite In_order_by; [| tauto].
  rewrite filter_In. tauto.
Qed.

Lemma walk_sum (rows : list Share) : forall remain d,
  zsum (values (fst (walk rows remain d)))
  = zsum (values d) + (remain - snd (walk rows remain d)).
Proof.
  induction rows as [|r rest IH]; intros remain d; simpl.
  - lia.
  - destruct (remain >? s_shares r); simpl.
    + rewrite IH, zsum_dict_add. lia.
    + rewrite zsum_dict_add. lia.
Qed.

Lemma walk_within (rows : list Share) : forall remain d,
  Forall (fun s => 0 <= s_shares s) rows ->
  rows <> [] -> remain <= total_amount rows ->
  snd (walk rows remain d) = 0.
Proof.
  unfold total_amount.
  induction rows as [|r rest IH]; intros remain d Hpos Hne Hle; [congruence |].
  simpl in *. inversion Hpos as [|? ? Hr Hrest]; subst.
  destruct (Z.gtb_spec remain (s_shares r)); [| reflexivity].
  apply IH; [assumption | | lia].
  intros ->. simpl in Hle. lia.
Qed.

Lemma walk_beyond (rows : list Share) : forall remain d,
  Forall (fun s => 0 <= s_shares s) rows ->
  total_amount rows < remain ->
  snd (walk rows remain d) = remain - total_amount rows.
Proof.
  unfold total_amount.
  induction rows as [|r rest IH]; intros remain d Hpos Hlt; simpl in *.
  - lia.
  - inversion Hpos as [|? ? Hr Hrest]; subst.
    assert (0 <= zsum (map s_shares rest)).
    { clear -Hrest. induction Hrest; simpl; lia. }
    destruct (Z.gtb_spec remain (s_shares r)); [| lia].
    rewrite IH; [lia | assumption | lia].
Qed.

Lemma walk_partial (pre : list Share) : forall r post budget d,
  Forall (fun s => 0 <= s_shares s) (pre ++ r :: post) ->
  total_amount pre < budget -> budget <= total_amount pre + s_shares r ->
  walk (pre ++ r :: post) budget d
  = (dict_add (s_user r) (budget - total_amount pre) (credit_all pre d), 0).
Proof.
  unfold total_amount.
  induction pre as [|h pre IH]; intros r post budget d Hpos Hlt Hle; simpl in *.
  - destruct (Z.gtb_spec budget (s_shares r)); [lia |].
    now replace (budget - 0) with budget by lia.
  - inversion Hpos as [|? ? Hh Hrest]; subst.
    assert (0 <= zsum (map s_shares pre)).
    { apply Forall_app in Hrest. destruct Hrest as [Hrest _].
      clear -Hrest. induction Hrest; simpl; lia. }
    destruct (Z.gtb_spec budget (s_shares h)); [| lia].
    rewrite IH; [| assumption | lia | lia].
    f_equal. f_equal. lia.
Qed.

Lemma ledger_rows_nonneg (c : option Z) (tbl : list Share) :
  Forall (fun s => 0 <= s_shares s) tbl ->
  Forall (fun s => 0 <= s_shares s) (ledger_rows c tbl).
Proof.
  rewrite !Forall_forall. intros H x Hx. apply H.
  eapply In_ledger_rows; eassumption.
Qed.

(** C6. On a ledger of non-negative amounts, walked newest first from the
    top or from an upper cursor: when the rows walked are not empty and
    the budget does not exceed the amount available, the per-user counts
    sum to the budget and the walk is not exhausted; when the budget
    exceeds the amount available, the counts sum to the amount available
    and the walk is exhausted; and the first row whose amount reaches the
    rest of the budget is credited that rest only, every row before it in
    full and no row after it. *)
Theorem aggregate_sums (tbl : list Share) (upper_cursor : option Z) (budget : Z) :
  Forall (fun s => 0 <= s_shares s) tbl ->
  (ledger_rows upper_cursor tbl <> [] ->
   budget <= available upper_cursor tbl ->
   zsum (values (fst (aggregate budget upper_cursor tbl))) = budget
   /\ exhausted (snd (aggregate budget upper_cursor tbl)) = false)
  /\ (available upper_cursor tbl < budget ->
      zsum (values (fst (aggregate budget upper_cursor tbl)))
      = available upper_cursor tbl
      /\ exhausted (snd (aggregate budget upper_cursor tbl)) = true)
  /\ (forall pre r post,
        ledger_rows upper_cursor tbl = (pre ++ r :: post)%list ->
        total_amount pre < budget ->
        budget <= total_amount pre + s_shares r ->
        aggregate budget upper_cursor tbl
        = (dict_add (s_user r) (budget - total_amount pre) (credit_all pre []), 0)).
Proof.
  intros Hpos. unfold aggregate, exhausted.
  pose proof (ledger_rows_nonneg upper_cursor tbl Hpos) as Hrows.
  pose proof (walk_sum (ledger_rows upper_cursor tbl) budget []) as Hsum.
  rewrite <- total_amount_ledger_rows.
  repeat split.
  - rewrite Hsum, walk_within by assumption. simpl. lia.
  - rewrite walk_within by assumption. reflexivity.
  - rewrite Hsum, walk_beyond by assumption. simpl. lia.
  - rewrite walk_beyond by assumption. apply Z.ltb_lt. lia.
  - intros pre r post E Hlt Hle. rewrite E in *.
    apply walk_partial; assumption.
Qed.

Lemma aggregate_sums_witness :
  aggregate 120 None ledger_example = ([("A", 100); ("B", 20)], 0).
Proof.
  assert (H : Forall (fun s => 0 <= s_shares s) ledger_example).
  { repeat constructor; simpl; lia. }
  destruct (aggregate_sums ledger_example None 120 H) as [_ [_ Hlast]].
  apply (Hlast [mkShare 2 "A" 100] (mkShare 1 "B" 50) []).
  - reflexivity.
  - unfold total_amount; simpl; lia.
  - unfold total_amount; simpl; lia.
Defined.

Lemma walk_nonempty (rows : list Share) : forall remain d,
  rows <> [] \/ d <> [] -> fst (walk rows remain d) <> [].
Proof.
  induction rows as [|r rest IH]; intros remain d H; simpl.
  - destruct H; congruence.
  - destruct (remain >? s_shares r); simpl.
    + apply IH. right. apply dict_add_nonempty.
    + apply dict_add_nonempty.
Qed.

Lemma walk_NoDup (rows : list Share) : forall remain d,
  NoDup (keys d) -> NoDup (keys (fst (walk rows remain d))).
Proof.
  induction rows as [|r rest IH]; intros remain d H; simpl.
  - assumption.
  - destruct (remain >? s_shares r); simpl.
    + apply IH. now apply NoDup_keys_dict_add.
    + now apply NoDup_keys_dict_add.
Qed.

(** ** The share window of a block *)

Lemma last_share_found (db : DB) (b : Block) (s : Share) :
  last_share db b = Some s ->
  In s (shares db) /\ b_last_share_id b = Some (s_id s).
Proof.
  unfold last_share. destruct (b_last_share_id b) as [i|]; [| discriminate].
  intros H. apply find_some in H. destruct H as [Hin E].
  apply Z.eqb_eq in E. subst. auto.
Qed.

Lemma count_shares_ok (env : Env) (db : DB) (block : Block)
  (user_shares : dict) (total_shares : Z) :
  count_shares env db block = Ok (user_shares, total_shares) ->
  user_shares <> [] /\ NoDup (keys user_shares)
  /\ zsum (values user_shares) = total_shares.
Proof.
  unfold count_shares.
  destruct (last_share db block) as [s|] eqn:Hs; [| discriminate].
  apply last_share_found in Hs. destruct Hs as [Hin _].
  unfold aggregate.
  set (rows := ledger_rows (Some (s_id s)) (shares db)).
  set (budget := bits_to_shares env (b_bits block) * last_n (config env)).
  pose proof (walk_sum rows budget []) as Hsum.
  pose proof (walk_NoDup rows budget [] (NoDup_nil _)) as Hnd.
  assert (Hne : rows <> []).
  { intros E. assert (Hs : In s rows).
    { unfold rows. simpl. apply In_order_by. apply filter_In.
      split; [assumption | apply Z.leb_refl]. }
    rewrite E in Hs. destruct Hs. }
  pose proof (walk_nonempty rows budget [] (or_introl Hne)) as Hne'.
  destruct (walk rows budget []) as [us remain]. simpl in *.
  intros [= <- <-]. repeat split; [assumption | assumption | lia].
Qed.

Lemma count_shares_raise (env : Env) (db : DB) (block : Block) (e : exn) :
  count_shares env db block = Raise e -> e = AttributeError.
Proof.
  unfold count_shares. destruct (last_share db block); [| congruence].
  destruct (aggregate _ _ _). discriminate.
Qed.

Lemma count_shares_fuel (env : Env) (db : DB) (block : Block) :
  count_shares env db block <> NoFuel.
Proof.
  unfold count_shares. destruct (last_share db block); [| discriminate].
  destruct (aggregate _ _ _). discriminate.
Qed.

(** ** Truncation and the remainder *)

Lemma dict_set_fresh (k : string) (v : Z) (d : dict) :
  ~ In k (keys d) -> dict_set k v d = (d ++ [(k, v)])%list.
Proof.
  induction d as [|[k' x] d IH]; simpl; intros H; [reflexivity |].
  destruct (String.eqb_spec k k') as [->|]; [tauto |].
  rewrite IH; tauto.
Qed.

Lemma truncate_ok (V total_shares : Z) (items : dict) : forall up accrued,
  total_shares <> 0 ->
  NoDup (keys up ++ keys items) ->
  truncate V total_shares items up accrued
  = Ok ((up ++ map (portion V total_shares) items)%list,
        accrued + zsum (values (map (portion V total_shares) items))).
Proof.
  induction items as [|[u c] rest IH]; intros up accrued HT Hnd; simpl.
  - rewrite app_nil_r. f_equal. f_equal. lia.
  - destruct (Z.eqb_spec total_shares 0); [contradiction |].
    simpl in Hnd.
    rewrite dict_set_fresh.
    + rewrite IH; [| assumption |].
      * rewrite <- app_assoc. cbn [map values zsum fold_right app portion fst snd].
        f_equal. f_equal. unfold values, zsum. lia.
      * unfold keys in *. rewrite map_app, <- app_assoc. simpl. assumption.
    + apply NoDup_remove_2 in Hnd. intros Hin. apply Hnd.
      apply in_or_app. left. exact Hin.
Qed.

Lemma truncate_zero (V : Z) (items up : dict) (accrued : Z) :
  items <> [] ->
  truncate V 0 items up accrued = Raise ZeroDivisionError.
Proof.
  destruct items as [|[u c] rest]; [congruence | reflexivity].
Qed.

Lemma portion_bounds (V T : Z) (items : dict) :
  T <> 0 ->
  (0 < T ->
   T * zsum (values (map (portion V T) items)) <= V * zsum (values items)
   /\ V * zsum (values items) - Z.of_nat (List.length items) * (T - 1)
      <= T * zsum (values (map (portion V T) items)))
  /\ (T < 0 ->
      V * zsum (values items) <= T * zsum (values (map (portion V T) items))
      /\ T * zsum (values (map (portion V T) items))
         <= V * zsum (values items) - Z.of_nat (List.length items) * (T + 1)).
Proof.
  intros HT.
  induction items as [|[u c] rest [IHp IHn]].
  - simpl. split; intros; lia.
  - cbn [map values zsum fold_right portion fst snd List.length].
    change (fold_right Z.add 0 (map snd (map (portion V T) rest)))
      with (zsum (values (map (portion V T) rest))).
    change (fold_right Z.add 0 (map snd rest)) with (zsum (values rest)).
    rewrite Nat2Z.inj_succ.
    pose proof (Z.div_mod (c * V) T HT) as Hdm.
    split; intros HT'.
    + pose proof (Z.mod_pos_bound (c * V) T HT').
      destruct (IHp HT'). split; nia.
    + pose proof (Z.mod_neg_bound (c * V) T HT').
      destruct (IHn HT'). split; nia.
Qed.

Lemma truncated_remainder (V T : Z) (items : dict) :
  T <> 0 -> zsum (values items) = T ->
  0 <= V - zsum (values (map (portion V T) items))
       <= Z.of_nat (List.length items).
Proof.
  intros HT HC.
  destruct (portion_bounds V T items HT) as [Hp Hn].
  rewrite HC in *.
  destruct (Z.lt_total T 0) as [Hlt | [-> | Hgt]]; [| contradiction |].
  - destruct (Hn Hlt). split; nia.
  - destruct (Hp Hgt). split; nia.
Qed.

Lemma rr_pass_spec (V : Z) (d : dict) : forall accrued,
  accrued < V ->
  keys (fst (rr_pass V d accrued)) = keys d
  /\ zsum (values (fst (rr_pass V d accrued)))
     = zsum (values d) + (snd (rr_pass V d accrued) - accrued)
  /\ accrued <= snd (rr_pass V d accrued) <= V
  /\ (V - accrued <= Z.of_nat (List.length d) -> snd (rr_pass V d accrued) = V).
Proof.
  induction d as [|[k p] t IH]; intros accrued Hlt.
  - simpl. repeat split; lia.
  - cbn [rr_pass]. destruct (Z.geb_spec (accrued + 1) V) as [Hge | Hnge].
    + simpl. repeat split; try lia.
    + specialize (IH (accrued + 1) Hnge).
      destruct (rr_pass V t (accrued + 1)) as [t' a]. simpl in *.
      destruct IH as [Hk [Hs [Hb Hx]]].
      split; [now rewrite Hk |].
      split; [lia |]. split; [lia |].
      intros. apply Hx. lia.
Qed.

Lemma round_robin_done (fuel : nat) (V : Z) (d : dict) (accrued : Z) :
  V <= accrued -> round_robin fuel V d accrued = Ok (d, accrued).
Proof.
  intros H. destruct fuel; simpl; destruct (Z.ltb_spec accrued V); try lia; reflexivity.
Qed.

(** When what is missing is at most one unit per user, one pass of the
    loop hands it out. *)
Lemma round_robin_one_pass (fuel : nat) (V : Z) (d : dict) (accrued : Z) :
  (1 <= fuel)%nat ->
  0 <= V - accrued <= Z.of_nat (List.length d) ->
  exists d',
    round_robin fuel V d accrued = Ok (d', V)
    /\ keys d' = keys d
    /\ zsum (values d') = zsum (values d) + (V - accrued).
Proof.
  intros Hf Hb.
  destruct (Z.eq_dec accrued V) as [-> | Hne].
  - exists d. rewrite round_robin_done by lia. repeat split; lia.
  - destruct fuel as [|fuel]; [lia |].
    cbn [round_robin]. destruct (Z.ltb_spec accrued V); [| lia].
    destruct (rr_pass_spec V d accrued) as [Hk [Hs [_ Hx]]]; [lia |].
    destruct (rr_pass V d accrued) as [d' a]. simpl in *.
    rewrite Hx by lia. exists d'.
    rewrite round_robin_done by lia. rewrite Hx in Hs by lia.
    repeat split; try assumption.
Qed.

(** An empty dict under a positive value never leaves the loop. *)
Lemma round_robin_empty_diverges (fuel : nat) (V accrued : Z) :
  accrued < V -> round_robin fuel V [] accrued = NoFuel.
Proof.
  intros H. induction fuel as [|fuel IH]; simpl;
    destruct (Z.ltb_spec accrued V); try lia; [reflexivity | exact IH].
Qed.

Lemma round_robin_ok (fuel : nat) (V : Z) (d d' : dict) (accrued a' : Z) :
  0 <= V - accrued <= Z.of_nat (List.length d) ->
  round_robin fuel V d accrued = Ok (d', a') ->
  a' = V /\ keys d' = keys d
  /\ zsum (values d') = zsum (values d) + (V - accrued).
Proof.
  intros Hb H. destruct fuel as [|fuel].
  - simpl in H. destruct (Z.ltb_spec accrued V); [discriminate |].
    injection H as <- <-. repeat split; lia.
  - destruct (round_robin_one_pass (S fuel) V d accrued) as [d0 [E [Hk Hs]]];
      [lia | assumption |].
    rewrite E in H. injection H as <- <-. auto.
Qed.

(** ** Steps that always come back *)

Lemma comes_back_bind {A B : Type} (m : res A) (k : A -> res B) :
  comes_back m -> (forall a, m = Ok a -> comes_back (k a)) ->
  comes_back (bind m k).
Proof.
  unfold comes_back. destruct m; simpl; intros H1 H2; auto; discriminate.
Qed.

Lemma float_of_int_back (z : Z) : comes_back (PyFloat.float_of_int z).
Proof.
  unfold comes_back, PyFloat.float_of_int. destruct (PyFloat.of_Z z); discriminate.
Qed.

Lemma log_amount_back (z : Z) : comes_back (log_amount z).
Proof.
  unfold log_amount. apply comes_back_bind; [apply float_of_int_back |].
  intros; discriminate.
Qed.

Lemma log_amounts_back (l : list Z) : comes_back (log_amounts l).
Proof.
  induction l as [|z l IH]; simpl; [discriminate |].
  apply comes_back_bind; [apply log_amount_back | intros; exact IH].
Qed.

Lemma log_accrued_back (a V : Z) : comes_back (log_accrued a V).
Proof.
  unfold log_accrued.
  apply comes_back_bind; [apply float_of_int_back | intros].
  apply comes_back_bind; [apply float_of_int_back | intros].
  destruct (V =? 0); discriminate.
Qed.

Lemma donation_amount_back (perc payout : Z) : comes_back (donation_amount perc payout).
Proof.
  unfold donation_amount.
  apply comes_back_bind; [apply float_of_int_back | intros].
  apply comes_back_bind; [apply float_of_int_back | intros].
  unfold PyFloat.int_ceil. destruct (PyFloat.fmul _ _); discriminate.
Qed.

Lemma bonus_amount_back (perc payout : Z) : comes_back (bonus_amount perc payout).
Proof.
  unfold bonus_amount.
  apply comes_back_bind; [apply float_of_int_back | intros].
  apply comes_back_bind; [apply float_of_int_back | intros].
  unfold PyFloat.int_floor. destruct (PyFloat.fmul _ _); discriminate.
Qed.

Lemma adjust_back (default : Z) (custom items : dict) : forall a,
  comes_back (adjust default custom items a).
Proof.
  induction items as [|[user payout] rest IH]; intros a; cbn [adjust].
  - discriminate.
  - destruct (_ >? 0).
    + apply comes_back_bind; [apply donation_amount_back | intros].
      apply comes_back_bind; [apply log_amount_back | intros]. apply IH.
    + destruct (_ <? 0).
      * apply comes_back_bind; [apply bonus_amount_back | intros].
        apply comes_back_bind; [apply log_amount_back | intros]. apply IH.
      * apply IH.
Qed.

Lemma adjust_all_back (env : Env) (db : DB) (us pin : dict) :
  comes_back (adjust_all env db us pin).
Proof.
  unfold adjust_all.
  apply comes_back_bind; [apply adjust_back | intros].
  repeat (apply comes_back_bind; [apply log_amount_back | intros]).
  discriminate.
Qed.

Lemma payout_rows_back (block : Block) (us : dict) (a : Adjust) (items : dict) :
  comes_back (payout_rows block us a items).
Proof.
  induction items as [|[user amount] rest IH]; cbn [payout_rows]; [discriminate |].
  apply comes_back_bind; [unfold dict_item; destruct (dict_get _ _); discriminate | intros].
  apply comes_back_bind; [unfold dict_item; destruct (dict_get _ _); discriminate | intros].
  apply comes_back_bind; [exact IH | intros; discriminate].
Qed.

Lemma commit_back (env : Env) (db : DB) (block : Block) (us : dict) (a : Adjust) :
  comes_back (commit env db block us a).
Proof.
  unfold commit.
  apply comes_back_bind; [apply payout_rows_back | intros rows _].
  apply comes_back_bind.
  - destruct (donation_total a >? 0); [| intro; discriminate].
    destruct (donate_address _); [| intro; discriminate].
    apply comes_back_bind; [apply log_amount_back | intros ? _ ?; discriminate].
  - intros db1 _. destruct (config_get _ 0 >? 0); [| intro; discriminate].
    apply comes_back_bind; [apply log_amount_back | intros ? _ ?; discriminate].
Qed.

Lemma finish_back (env : Env) (simulate : bool) (db : DB) (block : Block)
  (us : dict) (accrued : Z) (a : Adjust) :
  comes_back (finish env simulate db block us accrued a).
Proof.
  unfold finish.
  destruct (negb _); [intro; discriminate |].
  destruct (negb _); [intro; discriminate |].
  destruct simulate; [| apply commit_back].
  apply comes_back_bind; [apply log_amounts_back | intros ? _ ?; discriminate].
Qed.

(** ** The distribution before donations *)

Lemma distribute_ok (fuel : nat) (V T : Z) (us pre : dict) (accrued : Z) :
  us <> [] -> NoDup (keys us) -> zsum (values us) = T ->
  distribute fuel V T us = Ok (pre, accrued) ->
  T <> 0 /\ accrued = V /\ zsum (values pre) = V /\ keys pre = keys us.
Proof.
  intros Hne Hnd HT. unfold distribute.
  destruct (Z.eq_dec T 0) as [-> | HT0].
  { rewrite truncate_zero by assumption. discriminate. }
  rewrite truncate_ok by assumption. cbn [bind app].
  destruct (log_accrued _ V); cbn [bind]; try discriminate.
  pose proof (truncated_remainder V T us HT0 HT) as Hrem.
  intros H. apply round_robin_ok in H.
  - destruct H as [-> [Hk Hs]]. repeat split; try assumption.
    + lia.
    + rewrite Hk. unfold keys. rewrite map_map. apply map_ext. now intros [].
  - rewrite length_map. lia.
Qed.

Lemma distribute_back (fuel : nat) (V T : Z) (us : dict) :
  (1 <= fuel)%nat ->
  us <> [] -> NoDup (keys us) -> zsum (values us) = T ->
  comes_back (distribute fuel V T us).
Proof.
  intros Hf Hne Hnd HT. unfold distribute.
  destruct (Z.eq_dec T 0) as [-> | HT0].
  { rewrite truncate_zero by assumption. discriminate. }
  rewrite truncate_ok by assumption. cbn [bind app].
  pose proof (log_accrued_back (0 + zsum (values (map (portion V T) us))) V) as Hl.
  destruct (log_accrued _ V); cbn [bind]; try discriminate; [| contradiction].
  pose proof (truncated_remainder V T us HT0 HT) as Hrem.
  destruct (round_robin_one_pass fuel V (map (portion V T) us)
              (0 + zsum (values (map (portion V T) us)))) as [d' [E _]].
  - assumption.
  - rewrite length_map. lia.
  - rewrite E. discriminate.
Qed.

Lemma distribute_raise (fuel : nat) (V T : Z) (us : dict) (e : exn) :
  distribute fuel V T us = Raise e ->
  e = ZeroDivisionError \/ e = OverflowError.
Proof.
  unfold distribute.
  assert (Htr : forall items up acc e0,
             truncate V T items up acc = Raise e0 -> e0 = ZeroDivisionError).
  { induction items as [|[u c] rest IH]; intros up acc e0; simpl; [discriminate |].
    destruct (T =? 0); [congruence | apply IH]. }
  assert (Hrr : forall f d a e0, round_robin f V d a <> Raise e0).
  { induction f as [|f IH]; intros d a e0; simpl;
      destruct (a <? V); try discriminate.
    destruct (rr_pass V d a). apply IH. }
  destruct (truncate V T us [] 0) as [[up acc]| e0 |] eqn:E; cbn [bind].
  - unfold log_accrued, PyFloat.float_of_int.
    destruct (PyFloat.of_Z V); cbn [bind];
      destruct (PyFloat.of_Z acc); cbn [bind];
      destruct (V =? 0); cbn [bind]; intros H;
      try (exfalso; eapply Hrr; eassumption);
      injection H as <-; auto.
  - intros [= <-]. left. eapply Htr; eassumption.
  - discriminate.
Qed.

Lemma unit_step_refl (d : dict) : Forall2 unit_step d d.
Proof.
  induction d; constructor; [unfold unit_step; auto | assumption].
Qed.

Lemma rr_pass_units (V : Z) (d : dict) : forall accrued,
  Forall2 unit_step d (fst (rr_pass V d accrued)).
Proof.
  induction d as [|[k p] t IH]; intros accrued; cbn [rr_pass].
  - constructor.
  - destruct (accrued + 1 >=? V).
    + constructor; [unfold unit_step; simpl; auto | apply unit_step_refl].
    + specialize (IH (accrued + 1)).
      destruct (rr_pass V t (accrued + 1)) as [t' a].
      constructor; [unfold unit_step; simpl; auto | exact IH].
Qed.

Lemma round_robin_units (fuel : nat) (V : Z) (d d' : dict) (accrued a' : Z) :
  0 <= V - accrued <= Z.of_nat (List.length d) ->
  round_robin fuel V d accrued = Ok (d', a') ->
  Forall2 unit_step d d'.
Proof.
  intros Hb H. destruct fuel as [|fuel]; cbn [round_robin] in H;
    destruct (Z.ltb_spec accrued V); try discriminate;
    try (injection H as <- <-; apply unit_step_refl).
  pose proof (rr_pass_units V d accrued) as Hu.
  destruct (rr_pass_spec V d accrued) as [_ [_ [_ Hx]]]; [assumption |].
  destruct (rr_pass V d accrued) as [d1 a1]. simpl in *.
  rewrite round_robin_done in H by lia.
  injection H as <- <-. exact Hu.
Qed.

Lemma distribute_units (fuel : nat) (V T : Z) (us pre : dict) (accrued : Z) :
  us <> [] -> NoDup (keys us) -> zsum (values us) = T ->
  distribute fuel V T us = Ok (pre, accrued) ->
  Forall2 unit_step (map (portion V T) us) pre.
Proof.
  intros Hne Hnd HT. unfold distribute.
  destruct (Z.eq_dec T 0) as [-> | HT0].
  { rewrite truncate_zero by assumption. discriminate. }
  rewrite truncate_ok by assumption. cbn [bind app].
  destruct (log_accrued _ V); cbn [bind]; try discriminate.
  pose proof (truncated_remainder V T us HT0 HT) as Hrem.
  apply round_robin_units. rewrite length_map. lia.
Qed.

(** ** Donations and bonuses *)

Lemma adjust_sum (default : Z) (custom items : dict) : forall a a',
  adjust default custom items a = Ok a' ->
  zsum (values (user_payouts a')) + donation_total a' - bonus_total a'
  = zsum (values (user_payouts a)) + donation_total a - bonus_total a.
Proof.
  induction items as [|[user payout] rest IH]; intros a a'; cbn [adjust].
  - intros [= <-]. reflexivity.
  - destruct (_ >? 0).
    + destruct (donation_amount _ payout) as [donation| |]; cbn [bind]; try discriminate.
      destruct (log_amount donation); cbn [bind]; try discriminate.
      intros H. apply IH in H. rewrite H.
      cbn [user_payouts donation_total bonus_total].
      rewrite zsum_dict_add. lia.
    + destruct (_ <? 0).
      * destruct (bonus_amount _ payout) as [bonus| |]; cbn [bind]; try discriminate.
        destruct (log_amount bonus); cbn [bind]; try discriminate.
        intros H. apply IH in H. rewrite H.
        cbn [user_payouts donation_total bonus_total].
        rewrite zsum_dict_add. lia.
      * intros H. apply IH in H. rewrite H. reflexivity.
Qed.

Lemma adjust_all_sum (env : Env) (db : DB) (us pin : dict) (a : Adjust) :
  adjust_all env db us pin = Ok a ->
  zsum (values (user_payouts a))
  = zsum (values pin) + bonus_total a - donation_total a.
Proof.
  unfold adjust_all.
  destruct (adjust _ _ pin _) as [a0| |] eqn:E; cbn [bind]; try discriminate.
  repeat (destruct (log_amount _); cbn [bind]; try discriminate).
  intros [= <-]. apply adjust_sum in E.
  cbn [user_payouts donation_total bonus_total] in E. lia.
Qed.

(** ** What a commit writes *)

Lemma payout_rows_ok (block : Block) (us : dict) (a : Adjust) (items : dict) :
  forall rows,
  payout_rows block us a items = Ok rows ->
  map p_amount rows = values items
  /\ map p_user rows = keys items
  /\ Forall (fun r => p_block r = b_hash block) rows.
Proof.
  induction items as [|[user amount] rest IH]; intros rows; cbn [payout_rows].
  - intros [= <-]. repeat split; constructor.
  - destruct (dict_item user us); cbn [bind]; try discriminate.
    destruct (dict_item user (user_perc a)); cbn [bind]; try discriminate.
    destruct (payout_rows block us a rest) as [rows0| |]; cbn [bind]; try discriminate.
    intros [= <-]. destruct (IH rows0 eq_refl) as [H1 [H2 H3]].
    simpl. rewrite H1, H2. repeat split. constructor; [reflexivity | assumption].
Qed.

Lemma commit_ok (env : Env) (db db' : DB) (block : Block) (us : dict) (a : Adjust) :
  commit env db block us a = Ok db' ->
  exists rows,
    payout_rows block us a (user_payouts a) = Ok rows
    /\ payouts db' = (payouts db ++ rows)%list
    /\ blocks db'
       = map (mark_processed block (donation_total a) (bonus_total a)) (blocks db)
    /\ shares db' = shares db.
Proof.
  unfold commit.
  destruct (payout_rows block us a (user_payouts a)) as [rows| |]; cbn [bind];
    try discriminate.
  intros H. exists rows. split; [reflexivity |].
  destruct (donation_total a >? 0).
  - destruct (donate_address (config env)); cbn [bind] in H; try discriminate.
    destruct (log_amount (donation_total a)); cbn [bind] in H; try discriminate.
    destruct (config_get _ 0 >? 0).
    + destruct (log_amount _); cbn [bind] in H; try discriminate.
      injection H as <-. auto.
    + injection H as <-. auto.
  - cbn [bind] in H. destruct (config_get _ 0 >? 0).
    + destruct (log_amount _); cbn [bind] in H; try discriminate.
      injection H as <-. auto.
    + injection H as <-. auto.
Qed.

Lemma payout_locals_ok (fuel : nat) (env : Env) (db : DB) (block : Block)
  (l : Locals) :
  payout_locals fuel env db block = Ok l ->
  l_accrued l = b_total_value block
  /\ zsum (values (l_raw_payouts l)) = b_total_value block
  /\ zsum (values (user_payouts (l_adjust l)))
     = b_total_value block + bonus_total (l_adjust l) - donation_total (l_adjust l).
Proof.
  unfold payout_locals.
  destruct (count_shares env db block) as [[us T]| |] eqn:Ec; cbn [bind];
    try discriminate.
  apply count_shares_ok in Ec. destruct Ec as [Hne [Hnd HT]].
  destruct (distribute fuel _ T us) as [[pre accrued]| |] eqn:Ed; cbn [bind];
    try discriminate.
  apply distribute_ok in Ed; try assumption. destruct Ed as [_ [-> [Hs _]]].
  destruct (adjust_all env db us pre) as [a| |] eqn:Ea; cbn [bind];
    try discriminate.
  apply adjust_all_sum in Ea.
  intros [= <-]. cbn [l_accrued l_raw_payouts l_adjust].
  repeat split; [assumption | lia].
Qed.

Lemma payout_locals_back (fuel : nat) (env : Env) (db : DB) (block : Block) :
  (1 <= fuel)%nat -> comes_back (payout_locals fuel env db block).
Proof.
  intros Hf. unfold payout_locals.
  apply comes_back_bind; [apply count_shares_fuel |].
  intros [us T] Ec. apply count_shares_ok in Ec. destruct Ec as [Hne [Hnd HT]].
  apply comes_back_bind; [now apply distribute_back |].
  intros [pre accrued] _.
  apply comes_back_bind; [apply adjust_all_back |].
  intros a _ H. discriminate.
Qed.

(** ** The block a run settles *)

Lemma first_by_height_None (l : list Block) :
  first_by_height l = None <-> l = [].
Proof.
  destruct l as [|b t]; simpl; [tauto |].
  destruct (first_by_height t) as [m|]; [destruct (b_height b <=? b_height m) |];
    split; discriminate.
Qed.

Lemma first_by_height_Some (l : list Block) : forall b,
  first_by_height l = Some b ->
  In b l /\ forall b', In b' l -> b_height b <= b_height b'.
Proof.
  induction l as [|h t IH]; intros b; simpl; [discriminate |].
  destruct (first_by_height t) as [m|] eqn:E.
  - destruct (IH m eq_refl) as [Hin Hmin].
    destruct (Z.leb_spec (b_height h) (b_height m)); intros [= <-].
    + split; [auto |]. intros b' [<- | Hb']; [lia |].
      specialize (Hmin b' Hb'). lia.
    + split; [auto |]. intros b' [<- | Hb']; [lia | auto].
  - apply first_by_height_None in E. subst. intros [= <-].
    split; [auto |]. intros b' [<- | []]. lia.
Qed.

Lemma select_block_None (db : DB) :
  select_block db = None <->
  forall b, In b (blocks db) -> unprocessed b = false.
Proof.
  unfold select_block. rewrite first_by_height_None. split.
  - intros E b Hb. destruct (unprocessed b) eqn:U; [| reflexivity].
    assert (In b (filter unprocessed (blocks db))) as Hf
      by (apply filter_In; auto).
    rewrite E in Hf. destruct Hf.
  - intros H. destruct (filter unprocessed (blocks db)) as [|b t] eqn:E;
      [reflexivity |].
    assert (In b (filter unprocessed (blocks db))) as Hf by (rewrite E; simpl; auto).
    apply filter_In in Hf. destruct Hf as [Hb U].
    rewrite (H b Hb) in U. discriminate.
Qed.

Lemma select_block_Some (db : DB) (block : Block) :
  select_block db = Some block ->
  In block (blocks db)
  /\ b_processed block = false /\ b_merged block = false
  /\ forall b', In b' (blocks db) ->
       b_processed b' = false -> b_merged b' = false ->
       b_height block <= b_height b'.
Proof.
  unfold select_block. intros H.
  apply first_by_height_Some in H. destruct H as [Hin Hmin].
  apply filter_In in Hin. destruct Hin as [Hin U].
  unfold unprocessed in U. apply andb_true_iff in U.
  rewrite !negb_true_iff in U. destruct U as [U1 U2].
  repeat split; try assumption.
  intros b' Hb' P M. apply Hmin. apply filter_In. split; [assumption |].
  unfold unprocessed. now rewrite P, M.
Qed.

Lemma payout_noop (fuel : nat) (env : Env) (simulate : bool) (db : DB) :
  select_block db = None -> payout fuel env simulate db = (Returned, db).
Proof.
  intros H. unfold payout, payout_body. now rewrite H.
Qed.

Lemma finish_result (env : Env) (simulate : bool) (db db' : DB) (block : Block)
  (us : dict) (accrued : Z) (a : Adjust) :
  finish env simulate db block us accrued a = Ok db' ->
  accrued = b_total_value block
  /\ zsum (values (user_payouts a))
     = b_total_value block + bonus_total a - donation_total a
  /\ (if simulate then db' = db
      else commit env db block us a = Ok db').
Proof.
  unfold finish.
  destruct (Z.eqb_spec accrued (b_total_value block)); cbn [negb]; [| discriminate].
  destruct (Z.eqb_spec (zsum (values (user_payouts a)))
              (b_total_value block + bonus_total a - donation_total a));
    cbn [negb]; [| discriminate].
  destruct simulate.
  - destruct (log_amounts _); cbn [bind]; try discriminate.
    intros [= <-]. auto.
  - auto.
Qed.

Lemma payout_touches_selected (fuel : nat) (env : Env) (simulate : bool)
  (db db' : DB) (block : Block) (o : outcome) :
  select_block db = Some block ->
  payout fuel env simulate db = (o, db') ->
  (forall p, In p (payouts db') -> In p (payouts db) \/ p_block p = b_hash block)
  /\ (forall b', In b' (blocks db') ->
        In b' (blocks db) \/ b_hash b' = b_hash block)
  /\ shares db' = shares db.
Proof.
  intros Hsel. unfold payout, payout_body. rewrite Hsel.
  destruct (payout_locals fuel env db block) as [l| |]; cbn [bind run_task];
    try (intros [= _ <-]; auto).
  destruct (finish env simulate db block _ _ _) as [db1| |] eqn:Ef;
    cbn [run_task]; intros [= _ <-]; auto.
  apply finish_result in Ef. destruct Ef as [_ [_ Ef]].
  destruct simulate; [subst; auto |].
  apply commit_ok in Ef. destruct Ef as [rows [Hrows [Hp [Hb Hs]]]].
  apply payout_rows_ok in Hrows. destruct Hrows as [_ [_ Hblk]].
  rewrite Hp, Hb, Hs. repeat split.
  - intros p Hin. apply in_app_or in Hin. destruct Hin as [Hin | Hin]; [auto |].
    right. rewrite Forall_forall in Hblk. auto.
  - intros b' Hin. apply in_map_iff in Hin. destruct Hin as [b [<- Hin]].
    unfold mark_processed.
    destruct (String.eqb_spec (b_hash b) (b_hash block)); [right | left]; auto.
Qed.

(** ** Examples the statements are tried on *)

Example payout_example :
  payout 1 env_example false db_example
  = (Returned,
     mkDB (shares db_example)
          [mkBlock "h10" 10 60 1000 "A" (Some 3) false false false true 47 166]
          [mkPayout "A" 620 "h10" 80 7 47; mkPayout "B" 499 "h10" 40 (-50) (-166)]
          [mkBonusPayout "pool" 47 (TotalDonations 10) "h10"]
          (donation_percents db_example)).
Proof. vm_compute. reflexivity. Qed.

(* ================================================================== *)
(** ** The payout engine *)

(** C1. After a run of [payout] that returns on a selected block, the
    payouts before the donation and bonus pass sum to [block.total_value]
    and the final payouts sum to
    [block.total_value + bonus_total - donation_total], exhausted window or
    not; when the run commits, the amounts of the [Payout] rows it adds are
    those final payouts, every row belongs to the block, and the block
    records the two totals. *)
Theorem payout_sums (fuel : nat) (env : Env) (simulate : bool) (db db' : DB)
  (block : Block) :
  select_block db = Some block ->
  payout fuel env simulate db = (Returned, db') ->
  exists l,
    payout_locals fuel env db block = Ok l
    /\ zsum (values (l_raw_payouts l)) = b_total_value block
    /\ zsum (values (user_payouts (l_adjust l)))
       = b_total_value block + bonus_total (l_adjust l)
         - donation_total (l_adjust l)
    /\ (simulate = false ->
        exists rows,
          payouts db' = (payouts db ++ rows)%list
          /\ map p_amount rows = values (user_payouts (l_adjust l))
          /\ zsum (map p_amount rows)
             = b_total_value block + bonus_total (l_adjust l)
               - donation_total (l_adjust l)
          /\ Forall (fun r => p_block r = b_hash block) rows
          /\ blocks db'
             = map (mark_processed block (donation_total (l_adjust l))
                      (bonus_total (l_adjust l))) (blocks db)).
Proof.
  intros Hsel. unfold payout, payout_body. rewrite Hsel.
  destruct (payout_locals fuel env db block) as [l| |] eqn:El; cbn [bind run_task];
    try discriminate.
  destruct (finish env simulate db block _ _ _) as [db1| |] eqn:Ef;
    cbn [run_task]; try discriminate.
  intros [= <-]. exists l.
  destruct (payout_locals_ok _ _ _ _ _ El) as [_ [Hraw Hfin]].
  repeat split; try assumption.
  intros ->. apply finish_result in Ef. destruct Ef as [_ [_ Ef]].
  apply commit_ok in Ef. destruct Ef as [rows [Hrows [Hp [Hb _]]]].
  apply payout_rows_ok in Hrows. destruct Hrows as [Ha [_ Hblk]].
  exists rows. repeat split; try assumption.
  rewrite Ha. exact Hfin.
Qed.

Lemma payout_sums_witness :
  exists l,
    payout_locals 1 env_example db_example block_example = Ok l
    /\ zsum (values (l_raw_payouts l)) = 1000
    /\ zsum (values (user_payouts (l_adjust l)))
       = 1000 + bonus_total (l_adjust l) - donation_total (l_adjust l).
Proof.
  destruct (payout_sums 1 env_example false db_example
              (snd (payout 1 env_example false db_example)) block_example)
    as [l [H1 [H2 [H3 _]]]].
  - reflexivity.
  - vm_compute. reflexivity.
  - exists l. repeat split; assumption.
Defined.

(** C8. With fuel for one turn of the [while] loop, a run on a selected
    block never fails to come back; and whenever the cursor of the block
    resolves, the distribution comes back and, unless it raised, it has
    handed the truncation remainder out one unit per user at most, so that
    the payouts sum to [block.total_value]. *)
Theorem payout_terminates (fuel : nat) (env : Env) (simulate : bool) (db : DB)
  (block : Block) :
  (1 <= fuel)%nat ->
  select_block db = Some block ->
  fst (payout fuel env simulate db) <> Diverged
  /\ forall user_shares total_shares,
       count_shares env db block = Ok (user_shares, total_shares) ->
       distribute fuel (b_total_value block) total_shares user_shares <> NoFuel
       /\ forall payouts_in accrued,
            distribute fuel (b_total_value block) total_shares user_shares
            = Ok (payouts_in, accrued) ->
            accrued = b_total_value block
            /\ zsum (values payouts_in) = b_total_value block
            /\ Forall2 unit_step
                 (map (portion (b_total_value block) total_shares) user_shares)
                 payouts_in
            /\ 0 <= b_total_value block
                    - zsum (values (map (portion (b_total_value block)
                                           total_shares) user_shares))
                 <= Z.of_nat (List.length user_shares).
Proof.
  intros Hf Hsel. split.
  - unfold payout, payout_body. rewrite Hsel.
    pose proof (payout_locals_back fuel env db block Hf) as Hl.
    destruct (payout_locals fuel env db block) as [l| |]; cbn [bind run_task fst];
      try discriminate; [| contradiction].
    pose proof (finish_back env simulate db block (l_user_shares l)
                  (l_accrued l) (l_adjust l)) as Hfin.
    destruct (finish _ _ _ _ _ _ _); cbn [run_task fst];
      try discriminate. contradiction.
  - intros us T Ec. apply count_shares_ok in Ec. destruct Ec as [Hne [Hnd HT]].
    split; [now apply distribute_back |].
    intros pin accrued Ed.
    pose proof (distribute_units _ _ _ _ _ _ Hne Hnd HT Ed) as Hu.
    apply distribute_ok in Ed; try assumption.
    destruct Ed as [HT0 [-> [Hs _]]].
    repeat split; try assumption;
      apply (truncated_remainder (b_total_value block) T us HT0 HT).
Qed.

Lemma payout_terminates_witness :
  fst (payout 1 env_example false db_example) <> Diverged.
Proof.
  apply (payout_terminates 1 env_example false db_example block_example).
  - apply le_n.
  - reflexivity.
Defined.

(** C5. When either assertion fails, that is when [accrued] is not
    [block.total_value] or the final payouts do not sum to
    [block.total_value + bonus_total - donation_total], the run raises
    [AssertionError] before anything is written and is rolled back: the
    database, its [Payout] rows and its blocks are those the task found. *)
Theorem finish_aborts (env : Env) (simulate : bool) (db : DB) (block : Block)
  (user_shares : dict) (accrued : Z) (a : Adjust) :
  accrued <> b_total_value block
  \/ zsum (values (user_payouts a))
     <> b_total_value block + bonus_total a - donation_total a ->
  finish env simulate db block user_shares accrued a = Raise AssertionError
  /\ run_task db (finish env simulate db block user_shares accrued a)
     = (Retry AssertionError, db)
  /\ payouts (snd (run_task db (finish env simulate db block user_shares accrued a)))
     = payouts db
  /\ blocks (snd (run_task db (finish env simulate db block user_shares accrued a)))
     = blocks db.
Proof.
  intros H.
  assert (E : finish env simulate db block user_shares accrued a
              = Raise AssertionError).
  { unfold finish.
    destruct (Z.eqb_spec accrued (b_total_value block)); cbn [negb];
      [| reflexivity].
    destruct (Z.eqb_spec (zsum (values (user_payouts a)))
                (b_total_value block + bonus_total a - donation_total a));
      cbn [negb]; [| reflexivity].
    destruct H; contradiction. }
  rewrite E. cbn [run_task snd]. auto.
Qed.

Lemma finish_aborts_witness :
  run_task db_example
    (finish env_example false db_example block_example
       [("A", 80); ("B", 40)] 999
       (mkAdjust [("A", 666); ("B", 333)] [] [] 0 0))
  = (Retry AssertionError, db_example).
Proof.
  apply (finish_aborts env_example false db_example block_example
           [("A", 80); ("B", 40)] 999
           (mkAdjust [("A", 666); ("B", 333)] [] [] 0 0)).
  left. simpl. lia.
Defined.

(** C10. When the selected block has no share cursor, the run raises
    [AttributeError] while it reads the cursor, before any share is
    counted, and is rolled back: the database is unchanged, so that the
    same block is selected, and the same happens, on every retry. *)
Theorem payout_null_cursor (fuel : nat) (env : Env) (simulate : bool) (db : DB)
  (block : Block) :
  select_block db = Some block ->
  b_last_share_id block = None ->
  count_shares env db block = Raise AttributeError
  /\ payout fuel env simulate db = (Retry AttributeError, db)
  /\ forall n,
       payout_runs n fuel env simulate db = db
       /\ select_block (payout_runs n fuel env simulate db) = Some block.
Proof.
  intros Hsel Hnull.
  assert (Ec : count_shares env db block = Raise AttributeError).
  { unfold count_shares, last_share. now rewrite Hnull. }
  assert (Ep : payout fuel env simulate db = (Retry AttributeError, db)).
  { unfold payout, payout_body, payout_locals. rewrite Hsel, Ec. reflexivity. }
  repeat split; try assumption.
  - induction n as [|n IH]; simpl; [reflexivity |]. now rewrite Ep.
  - induction n as [|n IH]; simpl; [assumption |]. now rewrite Ep.
Qed.

Lemma payout_null_cursor_witness :
  payout 1 env_example false db_null_cursor = (Retry AttributeError, db_null_cursor).
Proof.
  apply (payout_null_cursor 1 env_example false db_null_cursor
           (mkBlock "h11" 11 60 1000 "A" None false true false false 0 0));
    reflexivity.
Defined.

(** C2, as the code has it.  A run selects a block that is unprocessed and
    not merged and of least height among those, whatever its [mature] and
    [orphan] flags; there is no such block exactly when the selection is
    empty, and the run is then a no-op; and a run adds [Payout] rows for
    the selected block only and changes no other block. *)
Theorem payout_selects_oldest_unprocessed (fuel : nat) (env : Env)
  (simulate : bool) (db : DB) :
  (select_block db = None <->
   forall b, In b (blocks db) -> unprocessed b = false)
  /\ (select_block db = None -> payout fuel env simulate db = (Returned, db))
  /\ (forall block, select_block db = Some block ->
        In block (blocks db)
        /\ b_processed block = false /\ b_merged block = false
        /\ (forall b', In b' (blocks db) ->
              b_processed b' = false -> b_merged b' = false ->
              b_height block <= b_height b')
        /\ forall o db', payout fuel env simulate db = (o, db') ->
             (forall p, In p (payouts db') ->
                In p (payouts db) \/ p_block p = b_hash block)
             /\ (forall b', In b' (blocks db') ->
                   In b' (blocks db) \/ b_hash b' = b_hash block)).
Proof.
  split; [apply select_block_None |].
  split; [apply payout_noop |].
  intros block Hsel.
  destruct (select_block_Some db block Hsel) as [H1 [H2 [H3 H4]]].
  repeat split; try assumption;
    destruct (payout_touches_selected _ _ _ _ _ _ _ Hsel H) as [Hp [Hb _]];
    assumption.
Qed.

(** C2 fails as stated: a block that is an orphan and not mature is
    selected, paid and marked processed. *)
Lemma orphan_block_is_paid :
  In orphan_block (blocks db_orphan)
  /\ b_orphan orphan_block = true /\ b_mature orphan_block = false
  /\ select_block db_orphan = Some orphan_block
  /\ payout 1 env_example false db_orphan
     = (Returned,
        mkDB [mkShare 1 "A" 50]
             [mkBlock "h12" 12 60 1000 "A" (Some 1) false false true true 0 0]
             [mkPayout "A" 1000 "h12" 50 0 0] [] []).
Proof.
  repeat split; try reflexivity. simpl. auto.
Qed.

(** ** Donations and bonuses are computed in floating point *)

(** C3 fails on the code.  [int(ceil((perc / 100.0) * payout))] is a
    computation on doubles: 7 percent of a payout of 100 is taken as 8,
    where the exact ceiling is 7, and a bonus of 29 percent of 100 is paid
    as 28, where the exact floor is 29.  A block of value 100 with one
    miner and a default of 7 percent records a donation of 8. *)
Theorem donation_is_not_exact :
  donation_amount 7 100 = Ok 8 /\ exact_donation 7 100 = 7
  /\ bonus_amount 29 100 = Ok 28 /\ exact_bonus (-29) 100 = 29
  /\ payout 1 env_seven false db_seven
     = (Returned,
        mkDB [mkShare 1 "A" 50]
             [mkBlock "h13" 13 60 100 "A" (Some 1) false true false true 8 0]
             [mkPayout "A" 92 "h13" 50 7 8]
             [mkBonusPayout "pool" 8 (TotalDonations 13) "h13"] []).
Proof.
  repeat split; vm_compute; reflexivity.
Qed.

(** ** The cleanup engine *)

Lemma cleanup_result (cfg : Config) (cached : option spec_float)
  (simulate : bool) (db : DB) :
  snd (cleanup cfg cached simulate db) = db
  \/ exists stale_id,
       stale_id <> 0 /\ simulate = false
       /\ cleanup_stale_id cfg cached db = Some stale_id
       /\ cleanup cfg cached simulate db
          = (Returned,
             {| shares := filter (fun s => negb (s_id s <? stale_id)) (shares db);
                blocks := map (clear_cursor stale_id) (blocks db);
                payouts := payouts db;
                bonus_payouts := bonus_payouts db;
                donation_percents := donation_percents db |}).
Proof.
  unfold cleanup, cleanup_body, cleanup_stale_id.
  destruct (cleanup_diff cached) as [diff|]; [| left; reflexivity].
  destruct (cleanup_total_shares cfg diff (unproc_blocks db)) as [total| |];
    cbn [bind run_task snd]; try (left; reflexivity).
  destruct (Z.eqb_spec (find_stale (ledger_rows None (shares db)) 0 total) 0);
    [left; reflexivity |].
  destruct simulate; [left; reflexivity |].
  right. exists (find_stale (ledger_rows None (shares db)) 0 total).
  destruct (Z.eqb_spec (find_stale (ledger_rows None (shares db)) 0 total) 0);
    [contradiction |].
  repeat split; assumption.
Qed.

Lemma clear_cursor_kept (stale_id : Z) (b : Block) (c : Z) :
  b_last_share_id (clear_cursor stale_id b) = Some c ->
  b_last_share_id b = Some c /\ stale_id < c.
Proof.
  unfold clear_cursor. destruct (b_last_share_id b) as [c0|] eqn:E.
  - destruct (Z.leb_spec c0 stale_id); simpl; [discriminate |].
    rewrite E. intros [= <-]. auto.
  - rewrite E. discriminate.
Qed.

Lemma clear_cursor_cleared (stale_id : Z) (b : Block) (c : Z) :
  b_last_share_id b = Some c -> c <= stale_id ->
  b_last_share_id (clear_cursor stale_id b) = None.
Proof.
  unfold clear_cursor. intros -> H.
  destruct (Z.leb_spec c stale_id); [reflexivity | lia].
Qed.

(** The part of C4 the code keeps.  A cleanup run either leaves the
    database as it found it, or settles on a boundary id, clears the cursor of every
    block, processed or not, whose cursor is at or below the boundary, and
    deletes the entries below the boundary.  So a run adds no entry, no
    entry it deletes is referenced by a block afterwards, and if every
    cursor referenced an entry before the run, every cursor that is still
    set references an entry after it. *)
Theorem cleanup_leaves_no_dangling_cursor (cfg : Config)
  (cached : option spec_float) (simulate : bool) (db : DB) :
  (snd (cleanup cfg cached simulate db) = db
   \/ exists stale_id,
        cleanup_stale_id cfg cached db = Some stale_id
        /\ shares (snd (cleanup cfg cached simulate db))
           = filter (fun s => negb (s_id s <? stale_id)) (shares db)
        /\ blocks (snd (cleanup cfg cached simulate db))
           = map (clear_cursor stale_id) (blocks db)
        /\ forall b c, In b (blocks db) -> b_last_share_id b = Some c ->
             c <= stale_id ->
             b_last_share_id (clear_cursor stale_id b) = None)
  /\ (forall s, In s (shares (snd (cleanup cfg cached simulate db))) ->
        In s (shares db))
  /\ (forall s, In s (shares db) ->
        ~ In s (shares (snd (cleanup cfg cached simulate db))) ->
        forall b, In b (blocks (snd (cleanup cfg cached simulate db))) ->
          b_last_share_id b <> Some (s_id s))
  /\ (cursors_resolve db ->
      cursors_resolve (snd (cleanup cfg cached simulate db))).
Proof.
  destruct (cleanup_result cfg cached simulate db)
    as [E | [stale_id [Hnz [_ [Hst E]]]]].
  - rewrite E. repeat split; auto.
  - rewrite E. cbn [snd shares blocks]. split; [| split; [| split]].
    + right. exists stale_id. repeat split; try assumption.
      intros b c _. apply clear_cursor_cleared.
    + intros s Hin. apply filter_In in Hin. tauto.
    + intros s Hin Hout b Hb Hc.
      apply in_map_iff in Hb. destruct Hb as [b0 [<- Hb0]].
      apply clear_cursor_kept in Hc. destruct Hc as [_ Hlt].
      apply Hout. apply filter_In. split; [assumption |].
      destruct (Z.ltb_spec (s_id s) stale_id); [lia | reflexivity].
    + intros Hres b c Hb Hc. cbn [blocks shares] in *.
      apply in_map_iff in Hb. destruct Hb as [b0 [<- Hb0]].
      apply clear_cursor_kept in Hc. destruct Hc as [Hc Hlt].
      destruct (Hres b0 c Hb0 Hc) as [s [Hs Hid]].
      exists s. split; [| assumption].
      apply filter_In. split; [assumption |].
      destruct (Z.ltb_spec (s_id s) stale_id); [lia | reflexivity].
Qed.

(** C4 fails as stated: the one entry an unprocessed block refers to is
    deleted, the cursor of the block is cleared, and the payout of the
    block then raises on every run. *)
Lemma cleanup_deletes_referenced_share :
  In (mkShare 1 "A" 10) (shares db_cleanup)
  /\ In pending_block (blocks db_cleanup)
  /\ b_processed pending_block = false
  /\ b_last_share_id pending_block = Some 1
  /\ cleanup cfg_example None false db_cleanup
     = (Returned,
        mkDB [mkShare 2 "B" 600000000]
             [mkBlock "h14" 14 60 1000 "A" None false false false false 0 0]
             [] [] [])
  /\ ~ In (mkShare 1 "A" 10)
         (shares (snd (cleanup cfg_example None false db_cleanup)))
  /\ payout 1 env_example false (snd (cleanup cfg_example None false db_cleanup))
     = (Retry AttributeError,
        snd (cleanup cfg_example None false db_cleanup)).
Proof.
  assert (E : cleanup cfg_example None false db_cleanup
              = (Returned,
                 mkDB [mkShare 2 "B" 600000000]
                   [mkBlock "h14" 14 60 1000 "A" None false false false false 0 0]
                   [] [] [])) by (vm_compute; reflexivity).
  rewrite E.
  repeat split; try (simpl; auto; fail).
  simpl. intros [H | []]. discriminate.
Qed.

(** C4 fails on the code.  The docstring has cleanup find "all the shares
    that will no longer be used", and its comments have it leave the
    shares the unprocessed blocks need.  Yet whatever the cache holds, with
    N = 2 and a ledger of entry 1 (10 shares) and entry 2 (600000000
    shares), the run settles on the boundary id 2, deletes entry 1, to
    which the one unprocessed block refers, and clears the cursor of that
    block; the payout of the block then raises on every run, with any fuel
    and in either mode, so the block is never paid. *)
Theorem cleanup_strands_unprocessed_block (cached : option spec_float) :
  In (mkShare 1 "A" 10) (shares db_cleanup)
  /\ In pending_block (blocks db_cleanup)
  /\ b_processed pending_block = false
  /\ b_last_share_id pending_block = Some 1
  /\ cleanup cfg_example cached false db_cleanup
     = (Returned,
        mkDB [mkShare 2 "B" 600000000]
             [mkBlock "h14" 14 60 1000 "A" None false false false false 0 0]
             [] [] [])
  /\ ~ In (mkShare 1 "A" 10)
         (shares (snd (cleanup cfg_example cached false db_cleanup)))
  /\ forall fuel simulate,
       payout fuel env_example simulate
         (snd (cleanup cfg_example cached false db_cleanup))
       = (Retry AttributeError,
          snd (cleanup cfg_example cached false db_cleanup)).
Proof.
  assert (E : cleanup cfg_example cached false db_cleanup
              = (Returned,
                 mkDB [mkShare 2 "B" 600000000]
                   [mkBlock "h14" 14 60 1000 "A" None false false false false 0 0]
                   [] [] [])) by (vm_compute; reflexivity).
  rewrite E. cbn [snd shares].
  repeat split; try (simpl; auto; fail).
  simpl. intros [H | []]. discriminate.
Qed.

(** C7 fails on the code.  Line 350 replaces the cached average by the
    literal 1100.0, so the run is the same whatever the cache holds.  With
    a cached average of 2000, one unprocessed block, N = 2 and the default
    cleanup N of 4, the code keeps 576716800 shares where the budget of
    the specification is 1048576000. *)
Theorem cleanup_budget_ignores_cache :
  (forall cfg cached cached' simulate db,
      cleanup cfg cached simulate db = cleanup cfg cached' simulate db)
  /\ cleanup_diff (Some (PyFloat.of_Z 2000)) = Some (PyFloat.of_Z 1100)
  /\ cleanup_total_shares cfg_example (PyFloat.of_Z 1100)
       (unproc_blocks db_example) = Ok 576716800
  /\ spec_budget cfg_example 2000 db_example = 1048576000.
Proof.
  repeat split; vm_compute; reflexivity.
Qed.

(* ================================================================== *)
(** ** The threshold monitor *)

Module MonitorProps.
Import Monitor.

Lemma overheat_cards_violation (t : Threshold) (payload : list num) :
  forall i,
  nonempty (overheat_cards (Some t) i payload) = temp_violation t payload.
Proof.
  unfold temp_violation.
  induction payload as [|value rest IH]; intros i; simpl; [reflexivity |].
  destruct (ge_thresh value (temp_thresh t)); simpl; [reflexivity | apply IH].
Qed.

Lemma temp_transition (t : Threshold) (payload : list num) :
  agent_receive (Some t) (Temp payload)
  = transition t TempErr (temp_violation t payload).
Proof.
  unfold agent_receive, transition.
  rewrite overheat_cards_violation. cbn [get_flag].
  destruct (temp_violation t payload), (temp_err t); reflexivity.
Qed.

Lemma hashrate_of_kilohash (payload : list num) (hr : num) (i : Z) :
  hashrate_of payload = Ok (hr, i) ->
  kilohash payload = Ok hr /\ num_int hr = Ok i.
Proof.
  unfold hashrate_of.
  destruct (kilohash payload) as [hr0| |]; cbn [bind]; try discriminate.
  destruct (num_int hr0) as [i0| |] eqn:E; cbn [bind]; try discriminate.
  intros [= <- <-]. auto.
Qed.

Lemma hashrate_transition (t : Threshold) (payload : list num) :
  skipped payload = false ->
  agent_receive (Some t) (Hashrate payload)
  = transition t HashrateErr (hashrate_violation t payload).
Proof.
  unfold skipped, agent_receive, transition, hashrate_violation.
  destruct (hashrate_of payload) as [[hr i]| |] eqn:E; try discriminate.
  destruct (hashrate_of_kilohash _ _ _ E) as [-> _].
  intros ->. cbn [get_flag].
  destruct (le_thresh _ _), (hashrate_err t); reflexivity.
Qed.

Lemma hashrate_skipped_silent (t : Threshold) (payload : list num) :
  skipped payload = true ->
  agent_receive (Some t) (Hashrate payload) = (Some t, []).
Proof.
  unfold skipped, agent_receive.
  destruct (hashrate_of payload) as [[hr i]| |]; try reflexivity.
  now intros ->.
Qed.

Lemma violating_set_flag (t : Threshold) (f : flag) (v : bool) (m : sample) :
  violating (set_flag t f v) m = violating t m.
Proof. destruct m; reflexivity. Qed.

Lemma evaluated_set_flag (t : Threshold) (f : flag) (v : bool) (m : sample) :
  evaluated (set_flag t f v) m = evaluated t m.
Proof. destruct m; reflexivity. Qed.

Lemma receive_transition (t : Threshold) (m : sample) :
  evaluated t m = true ->
  agent_receive (Some t) m = transition t (flag_of m) (violating t m).
Proof.
  destruct m as [payload | payload]; cbn [evaluated flag_of violating]; intros H.
  - apply temp_transition.
  - apply hashrate_transition. now apply negb_true_iff in H.
Qed.

(** A run of evaluated samples of one kind that all agree on the
    violation state sends nothing once the flag agrees with them. *)
Lemma steady_run (f : flag) (v : bool) (ms : list sample) : forall t,
  Forall (fun m => evaluated t m = true /\ flag_of m = f) ms ->
  Forall (fun m => violating t m = v) ms ->
  get_flag t f = v ->
  receive_all (Some t) ms = (Some t, []).
Proof.
  induction ms as [|m rest IH]; intros t He Hv Hf; [reflexivity |].
  apply Forall_cons_iff in He. destruct He as [[He1 He2] He'].
  apply Forall_cons_iff in Hv. destruct Hv as [Hv1 Hv'].
  cbn [receive_all]. rewrite receive_transition by assumption.
  unfold transition. rewrite He2, Hf, Hv1.
  destruct v; cbn [negb andb]; rewrite (IH t) by assumption; reflexivity.
Qed.

Lemma get_set_flag (t : Threshold) (f : flag) (v : bool) :
  get_flag (set_flag t f v) f = v.
Proof. destruct f; reflexivity. Qed.

(** A run of evaluated samples of one kind that all disagree with the
    flag sends exactly one notification, at the first of them. *)
Lemma changing_run (f : flag) (v : bool) (ms : list sample) (t : Threshold) :
  ms <> [] ->
  Forall (fun m => evaluated t m = true /\ flag_of m = f) ms ->
  Forall (fun m => violating t m = v) ms ->
  get_flag t f = negb v ->
  receive_all (Some t) ms
  = (Some (set_flag t f v), [if v then Problem f else Resolved f]).
Proof.
  intros Hne He Hv Hf. destruct ms as [|m rest]; [congruence |].
  apply Forall_cons_iff in He. destruct He as [[He1 He2] He'].
  apply Forall_cons_iff in Hv. destruct Hv as [Hv1 Hv'].
  cbn [receive_all]. rewrite receive_transition by assumption.
  unfold transition. rewrite He2, Hf, Hv1.
  assert (Hrest : receive_all (Some (set_flag t f v)) rest
                  = (Some (set_flag t f v), [])).
  { apply (steady_run f v); [| | apply get_set_flag].
    - apply Forall_forall. intros x Hx. rewrite evaluated_set_flag.
      rewrite Forall_forall in He'. auto.
    - apply Forall_forall. intros x Hx. rewrite violating_set_flag.
      rewrite Forall_forall in Hv'. auto. }
  destruct v; cbn [negb andb]; rewrite Hrest; reflexivity.
Qed.

(** C9, as the code has it.  On the row of a (user, worker) pair whose
    [temp_thresh] is set, a temperature sample is violating when some
    reading is at or over [temp_thresh].  A hashrate sample is evaluated
    when [int(1000 * sum)] can be computed and is not zero; it is then
    violating when [1000 * sum] is at or under [hashrate_thresh], and
    never when [hashrate_thresh] is unset.  Such a sample sends one
    "problem" notification and sets the flag when it is violating and the
    flag is clear, one "resolved" notification and clears the flag when it
    is not violating and the flag is set, and nothing otherwise.  A
    hashrate sample that is not evaluated (a sum of less than a thousandth
    in magnitude, zero included, or one that can not be computed) sends
    nothing and leaves the row as it is.  So a run of N >= 1 evaluated
    violating samples from a clear flag sends exactly one "problem"
    notification, and a run of M >= 1 evaluated samples that are not
    violating from a set flag exactly one "resolved". *)
Theorem threshold_transitions (t : Threshold) :
  (forall m, evaluated t m = true ->
     agent_receive (Some t) m = transition t (flag_of m) (violating t m))
  /\ (forall x payload, temp_thresh t = Some x ->
        violating t (Temp payload)
        = existsb (fun value => num_ge value x) payload)
  /\ (forall payload hr i, hashrate_of payload = Ok (hr, i) ->
        violating t (Hashrate payload)
        = match hashrate_thresh t with
          | Some x => num_le hr x
          | None => false
          end)
  /\ (forall payload, skipped payload = true ->
        agent_receive (Some t) (Hashrate payload) = (Some t, []))
  /\ (forall f ms, ms <> [] ->
        Forall (fun m => evaluated t m = true /\ flag_of m = f) ms ->
        Forall (fun m => violating t m = true) ms ->
        get_flag t f = false ->
        receive_all (Some t) ms = (Some (set_flag t f true), [Problem f]))
  /\ (forall f ms, ms <> [] ->
        Forall (fun m => evaluated t m = true /\ flag_of m = f) ms ->
        Forall (fun m => violating t m = false) ms ->
        get_flag t f = true ->
        receive_all (Some t) ms = (Some (set_flag t f false), [Resolved f])).
Proof.
  split; [apply receive_transition |].
  split.
  { intros x payload Hx. cbn [violating]. unfold temp_violation, ge_thresh.
    now rewrite Hx. }
  split.
  { intros payload hr i E. cbn [violating]. unfold hashrate_violation.
    destruct (hashrate_of_kilohash _ _ _ E) as [-> _]. reflexivity. }
  split; [apply hashrate_skipped_silent |].
  split; intros f ms Hne He Hv Hf.
  - apply (changing_run f true ms t); assumption.
  - apply (changing_run f false ms t); assumption.
Qed.

(** C9 fails as stated.  With the flags clear, temp_thresh 80 and
    hashrate_thresh 500: a sample whose summed hashrate is zero, or
    0.0003, is under the threshold and sends no "problem" notification,
    however often it comes; a reading of exactly 80 is not over the
    threshold and sends one; and a summed hashrate of 0.5, which the code
    takes as 500, is not under the threshold and sends one. *)
Lemma stated_transitions_fail :
  hashrate_err thresh_example = false /\ temp_err thresh_example = false
  /\ spec_hashrate_violation thresh_example [NInt 0; NInt 0] = true
  /\ receive_all (Some thresh_example)
       [Hashrate [NInt 0; NInt 0]; Hashrate [NInt 0]; Hashrate [NInt 0; NInt 0]]
     = (Some thresh_example, [])
  /\ spec_hashrate_violation thresh_example [reading_small] = true
  /\ agent_receive (Some thresh_example) (Hashrate [reading_small])
     = (Some thresh_example, [])
  /\ spec_temp_violation thresh_example [NInt 80] = false
  /\ agent_receive (Some thresh_example) (Temp [NInt 80])
     = (Some (set_flag thresh_example TempErr true), [Problem TempErr])
  /\ spec_hashrate_violation thresh_example [reading_half] = false
  /\ agent_receive (Some thresh_example) (Hashrate [reading_half])
     = (Some (set_flag thresh_example HashrateErr true), [Problem HashrateErr]).
Proof. repeat split; vm_compute; reflexivity. Qed.

End MonitorProps.

(* ================================================================== *)
(** * Further properties of the tasks *)

(** ** Lookups *)

Lemma get0_dict_add (u k : string) (v : Z) (d : dict) :
  get0 u (dict_add k v d) = get0 u d + (if String.eqb u k then v else 0).
Proof.
  unfold get0. induction d as [|[k' x] d IH]; simpl.
  - destruct (String.eqb u k); lia.
  - destruct (String.eqb_spec k k') as [-> | Hk]; simpl.
    + destruct (String.eqb u k'); lia.
    + destruct (String.eqb_spec u k') as [-> | Hu].
      * destruct (String.eqb_spec k' k); [congruence | lia].
      * exact IH.
Qed.

Lemma get0_dict_set (u k : string) (v : Z) (d : dict) :
  get0 u (dict_set k v d) = if String.eqb u k then v else get0 u d.
Proof.
  unfold get0. induction d as [|[k' x] d IH]; simpl.
  - destruct (String.eqb u k); reflexivity.
  - destruct (String.eqb_spec k k') as [-> | Hk]; simpl.
    + destruct (String.eqb u k'); reflexivity.
    + destruct (String.eqb_spec u k') as [-> | Hu].
      * destruct (String.eqb_spec k' k); [congruence | reflexivity].
      * exact IH.
Qed.

Lemma keys_dict_set (k : string) (v : Z) (d : dict) :
  keys (dict_set k v d) = if existsb (String.eqb k) (keys d) then keys d
                          else (keys d ++ [k])%list.
Proof.
  induction d as [|[k' x] d IH]; simpl.
  - reflexivity.
  - destruct (String.eqb k k') eqn:E; simpl; [reflexivity |].
    rewrite IH. destruct (existsb (String.eqb k) (keys d)); reflexivity.
Qed.

Lemma In_keys_dict_set (u k : string) (v : Z) (d : dict) :
  In u (keys (dict_set k v d)) <-> u = k \/ In u (keys d).
Proof.
  rewrite keys_dict_set.
  destruct (existsb (String.eqb k) (keys d)) eqn:E.
  - apply existsb_eqb_In in E. split; [auto |]. intros [-> | H]; assumption.
  - rewrite in_app_iff. simpl. intuition.
Qed.

Lemma keys_dict_add_in (k : string) (v : Z) (d : dict) :
  In k (keys d) -> keys (dict_add k v d) = keys d.
Proof.
  intros H. rewrite keys_dict_add.
  apply existsb_eqb_In in H. now rewrite H.
Qed.

Lemma dict_get_in_keys (k : string) (d : dict) :
  In k (keys d) -> exists v, dict_get k d = Some v.
Proof.
  induction d as [|[k' x] d IH]; simpl; [tauto |].
  intros H. destruct (String.eqb_spec k k') as [-> | Hk]; [eauto |].
  destruct H as [H | H]; [congruence | auto].
Qed.

Lemma dict_get_some_in (k : string) (v : Z) (d : dict) :
  dict_get k d = Some v -> In (k, v) d.
Proof.
  induction d as [|[k' x] d IH]; simpl; [discriminate |].
  destruct (String.eqb_spec k k') as [-> | Hk]; [intros [= ->]; auto | auto].
Qed.

Lemma dict_get_NoDup (k : string) (v : Z) (d : dict) :
  NoDup (keys d) -> In (k, v) d -> dict_get k d = Some v.
Proof.
  induction d as [|[k' x] d IH]; simpl; [tauto |].
  intros Hnd [H | H].
  - injection H as -> ->. now rewrite String.eqb_refl.
  - inversion Hnd as [|? ? Hnot Hnd']; subst.
    destruct (String.eqb_spec k k') as [-> | Hk]; [| auto].
    exfalso. apply Hnot. change k' with (fst (k', v)).
    unfold keys. now apply in_map.
Qed.

Lemma zsum_lookup_keys (d : dict) :
  NoDup (keys d) ->
  forall l, Forall2 (fun k v => dict_get k d = Some v) (keys d) l ->
  zsum l = zsum (values d).
Proof.
  intros Hnd l H.
  assert (E : l = values d); [| now rewrite E].
  assert (G : forall items, (forall it, In it items -> In it d) ->
            forall l0, Forall2 (fun k v => dict_get k d = Some v) (keys items) l0 ->
            l0 = values items).
  { induction items as [|[k v] items IH]; intros Hsub l0 H0; simpl in *.
    - now inversion H0.
    - inversion H0 as [|? y ? l1 Hy H1]; subst.
      rewrite (dict_get_NoDup k v d Hnd) in Hy by (apply Hsub; auto).
      injection Hy as <-. f_equal. apply IH; auto. }
  apply (G d); auto.
Qed.

(** ** The donation pass, user by user *)

Lemma adjust_keys (default : Z) (custom items : dict) : forall a a',
  (forall k, In k (keys items) -> In k (keys (user_payouts a))) ->
  adjust default custom items a = Ok a' ->
  keys (user_payouts a') = keys (user_payouts a)
  /\ (forall k, In k (keys items) \/ In k (keys (user_perc a)) ->
        In k (keys (user_perc a'))).
Proof.
  induction items as [|[user payout] rest IH]; intros a a' Hsub; cbn [adjust].
  - intros [= <-]. split; [reflexivity |]. intros k [[] | H]; assumption.
  - assert (Hu : In user (keys (user_payouts a))) by (apply Hsub; simpl; auto).
    assert (Hrest : forall k, In k (keys rest) -> In k (keys (user_payouts a)))
      by (intros k Hk; apply Hsub; simpl; auto).
    assert (Hperc : forall (p k : Z -> Z -> Prop) a0,
               keys (user_payouts a0) = keys (user_payouts a) ->
               user_perc a0
               = dict_set user
                   match dict_get user custom with
                   | Some p0 => p0
                   | None => default
                   end (user_perc a) ->
               adjust default custom rest a0 = Ok a' ->
               keys (user_payouts a') = keys (user_payouts a)
               /\ (forall k0, In k0 (keys ((user, payout) :: rest))
                              \/ In k0 (keys (user_perc a)) ->
                     In k0 (keys (user_perc a')))).
    { intros _ _ a0 Hk Hp H. apply IH in H.
      - destruct H as [H1 H2]. split; [congruence |].
        intros k0 Hk0. apply H2. rewrite Hp, In_keys_dict_set.
        simpl in Hk0. intuition.
      - rewrite Hk. exact Hrest. }
    destruct (_ >? 0).
    + destruct (donation_amount _ payout) as [donation| |]; cbn [bind]; try discriminate.
      destruct (log_amount donation); cbn [bind]; try discriminate.
      apply (Hperc (fun _ _ => True) (fun _ _ => True)); cbn [user_payouts user_perc];
        [now apply keys_dict_add_in | reflexivity].
    + destruct (_ <? 0).
      * destruct (bonus_amount _ payout) as [bonus| |]; cbn [bind]; try discriminate.
        destruct (log_amount bonus); cbn [bind]; try discriminate.
        apply (Hperc (fun _ _ => True) (fun _ _ => True)); cbn [user_payouts user_perc];
          [now apply keys_dict_add_in | reflexivity].
      * apply (Hperc (fun _ _ => True) (fun _ _ => True)); reflexivity.
Qed.

(** Every user of the pass ends with payout plus applied amount equal to
    the payout before the pass; the other users are not touched. *)
Lemma adjust_account (default : Z) (custom items : dict) : forall a a',
  NoDup (keys items) ->
  adjust default custom items a = Ok a' ->
  forall u,
    (In u (keys items) -> get0 u (user_perc_applied a) = 0 ->
     get0 u (user_payouts a') + get0 u (user_perc_applied a')
     = get0 u (user_payouts a))
    /\ (~ In u (keys items) ->
        get0 u (user_payouts a') = get0 u (user_payouts a)
        /\ get0 u (user_perc_applied a') = get0 u (user_perc_applied a)).
Proof.
  induction items as [|[user payout] rest IH]; intros a a' Hnd; cbn [adjust].
  - intros [= <-] u. split; [intros [] | auto].
  - inversion Hnd as [|? ? Hnot Hnd']; subst.
    assert (Hstep : forall a0 delta applied,
               (forall u, get0 u (user_payouts a0)
                          = get0 u (user_payouts a)
                            + (if String.eqb u user then delta else 0)) ->
               (forall u, get0 u (user_perc_applied a0)
                          = if String.eqb u user then applied
                            else get0 u (user_perc_applied a)) ->
               delta + applied = 0 ->
               adjust default custom rest a0 = Ok a' ->
               forall u,
                 (In u (keys ((user, payout) :: rest)) ->
                  get0 u (user_perc_applied a) = 0 ->
                  get0 u (user_payouts a') + get0 u (user_perc_applied a')
                  = get0 u (user_payouts a))
                 /\ (~ In u (keys ((user, payout) :: rest)) ->
                     get0 u (user_payouts a') = get0 u (user_payouts a)
                     /\ get0 u (user_perc_applied a')
                        = get0 u (user_perc_applied a))).
    { intros a0 delta applied Hp Ha Hz H u.
      pose proof (IH a0 a' Hnd' H u) as [Hin Hout].
      specialize (Hp u). specialize (Ha u). simpl.
      destruct (String.eqb_spec u user) as [Eu | Hne]; [subst u |].
      - split; [| intros Hc; exfalso; apply Hc; auto].
        intros _ _. destruct (Hout Hnot) as [E1 E2]. lia.
      - split.
        + intros [Hc | Hr] Hzero; [congruence |].
          rewrite Hin; [lia | assumption | lia].
        + intros Hc. destruct Hout as [E1 E2]; [tauto |]. lia. }
    destruct (_ >? 0).
    + destruct (donation_amount _ payout) as [donation| |]; cbn [bind]; try discriminate.
      destruct (log_amount donation); cbn [bind]; try discriminate.
      apply (Hstep _ (- donation) donation); cbn [user_payouts user_perc_applied];
        [intros u; apply get0_dict_add | intros u; apply get0_dict_set | lia].
    + destruct (_ <? 0).
      * destruct (bonus_amount _ payout) as [bonus| |]; cbn [bind]; try discriminate.
        destruct (log_amount bonus); cbn [bind]; try discriminate.
        apply (Hstep _ bonus (-1 * bonus)); cbn [user_payouts user_perc_applied];
          [intros u; apply get0_dict_add | intros u; apply get0_dict_set | lia].
      * intros H u. pose proof (IH _ a' Hnd' H u) as [Hin Hout].
        cbn [user_payouts user_perc_applied] in *. simpl.
        destruct (String.eqb_spec u user) as [Eu | Hne]; [subst u |].
        -- split; [| intros Hc; exfalso; apply Hc; auto].
           intros _ Hzero. destruct (Hout Hnot) as [E1 E2]. lia.
        -- split; [intros [Hc | Hr] Hzero; [congruence | auto] |].
           intros Hc. apply Hout. tauto.
Qed.

(** ** The rows of a commit *)

Lemma payout_rows_spec (block : Block) (us : dict) (a : Adjust) (items : dict) :
  forall rows,
  payout_rows block us a items = Ok rows ->
  Forall2 (row_of block us a) items rows.
Proof.
  induction items as [|[user amount] rest IH]; intros rows; cbn [payout_rows].
  - intros [= <-]. constructor.
  - unfold dict_item.
    destruct (dict_get user us) as [sc|] eqn:E1; cbn [bind]; try discriminate.
    destruct (dict_get user (user_perc a)) as [pc|] eqn:E2; cbn [bind];
      try discriminate.
    destruct (payout_rows block us a rest) as [rows0| |]; cbn [bind];
      try discriminate.
    intros [= <-]. constructor; [| now apply IH].
    unfold row_of, get0. simpl. rewrite E1, E2. repeat split.
Qed.

Lemma payout_rows_total (block : Block) (us : dict) (a : Adjust) (items : dict) :
  (forall k, In k (keys items) -> In k (keys us) /\ In k (keys (user_perc a))) ->
  exists rows, payout_rows block us a items = Ok rows.
Proof.
  induction items as [|[user amount] rest IH]; intros Hsub; cbn [payout_rows].
  - eauto.
  - destruct (Hsub user) as [H1 H2]; [simpl; auto |].
    apply dict_get_in_keys in H1. destruct H1 as [sc E1].
    apply dict_get_in_keys in H2. destruct H2 as [pc E2].
    unfold dict_item. rewrite E1, E2. cbn [bind].
    destruct IH as [rows E]; [intros k Hk; apply Hsub; simpl; auto |].
    rewrite E. cbn [bind]. eauto.
Qed.

(** The locals of a run that got as far as the assertions *)
Lemma payout_locals_shape (fuel : nat) (env : Env) (db : DB) (block : Block)
  (l : Locals) :
  payout_locals fuel env db block = Ok l ->
  exists total_shares,
    count_shares env db block = Ok (l_user_shares l, total_shares)
    /\ total_shares <> 0
    /\ zsum (values (l_user_shares l)) = total_shares
    /\ l_user_shares l <> []
    /\ NoDup (keys (l_user_shares l))
    /\ keys (l_raw_payouts l) = keys (l_user_shares l)
    /\ keys (user_payouts (l_adjust l)) = keys (l_user_shares l)
    /\ (forall k, In k (keys (l_user_shares l)) ->
          In k (keys (user_perc (l_adjust l))))
    /\ Forall2 unit_step
         (map (portion (b_total_value block) total_shares) (l_user_shares l))
         (l_raw_payouts l)
    /\ forall u, In u (keys (l_user_shares l)) ->
         get0 u (user_payouts (l_adjust l))
         + get0 u (user_perc_applied (l_adjust l))
         = get0 u (l_raw_payouts l).
Proof.
  unfold payout_locals.
  destruct (count_shares env db block) as [[us T]| |] eqn:Ec; cbn [bind];
    try discriminate.
  destruct (count_shares_ok _ _ _ _ _ Ec) as [Hne [Hnd HT]].
  destruct (distribute fuel _ T us) as [[pre accrued]| |] eqn:Ed; cbn [bind];
    try discriminate.
  pose proof (distribute_units _ _ _ _ _ _ Hne Hnd HT Ed) as Hu.
  apply distribute_ok in Ed; try assumption.
  destruct Ed as [HT0 [-> [Hs Hk]]].
  unfold adjust_all.
  destruct (adjust _ _ pre _) as [a| |] eqn:Ea; cbn [bind]; try discriminate.
  repeat (destruct (log_amount _); cbn [bind]; try discriminate).
  intros [= <-]. cbn [l_user_shares l_raw_payouts l_adjust].
  exists T.
  destruct (adjust_keys _ _ _ _ _ (fun k H => H) Ea) as [Hk1 Hk2].
  cbn [user_payouts user_perc] in Hk1, Hk2.
  repeat split; try assumption; try congruence.
  - intros k Hin. apply Hk2. left. congruence.
  - intros u Hin.
    assert (Hnd' : NoDup (keys pre)) by congruence.
    destruct (adjust_account _ _ _ _ _ Hnd' Ea u) as [Hacc _].
    cbn [user_payouts user_perc_applied] in Hacc.
    apply Hacc; [congruence | reflexivity].
Qed.

Lemma payout_committed (fuel : nat) (env : Env) (db db' : DB) (block : Block) :
  select_block db = Some block ->
  payout fuel env false db = (Returned, db') ->
  exists l rows,
    payout_locals fuel env db block = Ok l
    /\ payout_rows block (l_user_shares l) (l_adjust l)
         (user_payouts (l_adjust l)) = Ok rows
    /\ payouts db' = (payouts db ++ rows)%list
    /\ blocks db'
       = map (mark_processed block (donation_total (l_adjust l))
                (bonus_total (l_adjust l))) (blocks db)
    /\ shares db' = shares db.
Proof.
  intros Hsel. unfold payout, payout_body. rewrite Hsel.
  destruct (payout_locals fuel env db block) as [l| |] eqn:El; cbn [bind run_task];
    try discriminate.
  destruct (finish env false db block _ _ _) as [db1| |] eqn:Ef;
    cbn [run_task]; try discriminate.
  intros [= <-]. apply finish_result in Ef. destruct Ef as [_ [_ Ef]].
  apply commit_ok in Ef. destruct Ef as [rows [Hrows [Hp [Hb Hs]]]].
  exists l, rows. auto.
Qed.

Lemma Forall2_row_users (block : Block) (us : dict) (a : Adjust) (items : dict)
  (rows : list Payout) :
  Forall2 (row_of block us a) items rows -> map p_user rows = keys items.
Proof.
  induction 1 as [|it r items rows [Hu _] _ IH]; simpl; [reflexivity |].
  now rewrite Hu, IH.
Qed.

Lemma walk_keys (rows : list Share) : forall remain d k,
  In k (keys (fst (walk rows remain d))) ->
  In k (keys d) \/ exists s, In s rows /\ s_user s = k.
Proof.
  assert (Hadd : forall k k0 v d, In k (keys (dict_add k0 v d)) ->
                                  In k (keys d) \/ k = k0).
  { intros k k0 v d. rewrite keys_dict_add.
    destruct (existsb _ _); [auto |]. rewrite in_app_iff. simpl. intuition. }
  induction rows as [|r rest IH]; intros remain d k; simpl; [auto |].
  destruct (remain >? s_shares r); simpl; intros H.
  - apply IH in H. destruct H as [H | [s [Hs Hu]]]; [| eauto].
    apply Hadd in H. destruct H as [H | ->]; eauto.
  - apply Hadd in H. destruct H as [H | ->]; eauto.
Qed.

(** X1. A run in simulate mode leaves the database as it found it, whether
    it returns, raises or selects no block. *)
Theorem payout_simulate_never_writes (fuel : nat) (env : Env) (db : DB) :
  snd (payout fuel env true db) = db.
Proof.
  unfold payout, payout_body.
  destruct (select_block db) as [block|]; [| reflexivity].
  destruct (payout_locals fuel env db block) as [l| |]; cbn [bind run_task snd];
    try reflexivity.
  destruct (finish env true db block _ _ _) as [db1| |] eqn:Ef;
    cbn [run_task snd]; try reflexivity.
  apply finish_result in Ef. tauto.
Qed.

(** X2. A selected block whose cursor resolves can not be settled when its
    value is zero or when the shares counted for it add up to zero: every
    run raises [ZeroDivisionError] and is rolled back. *)
Theorem payout_zero_division (fuel : nat) (env : Env) (simulate : bool)
  (db : DB) (block : Block) (user_shares : dict) (total_shares : Z) :
  select_block db = Some block ->
  count_shares env db block = Ok (user_shares, total_shares) ->
  b_total_value block = 0 \/ total_shares = 0 ->
  payout fuel env simulate db = (Retry ZeroDivisionError, db).
Proof.
  intros Hsel Ec Hz. unfold payout, payout_body, payout_locals.
  rewrite Hsel, Ec. cbn [bind].
  destruct (count_shares_ok _ _ _ _ _ Ec) as [Hne [Hnd HT]].
  unfold distribute.
  destruct (Z.eq_dec total_shares 0) as [-> | HT0].
  - rewrite truncate_zero by assumption. reflexivity.
  - destruct Hz as [HV | ?]; [| contradiction].
    rewrite truncate_ok by assumption. cbn [bind app]. rewrite HV.
    assert (E : zsum (values (map (portion 0 total_shares) user_shares)) = 0).
    { clear. induction user_shares as [|[u c] t IH]; [reflexivity |].
      cbn [map values zsum fold_right portion fst snd].
      change (fold_right Z.add 0 (map snd (map (portion 0 total_shares) t)))
        with (zsum (values (map (portion 0 total_shares) t))).
      rewrite IH, Z.mul_0_r. destruct total_shares; reflexivity. }
    rewrite E. reflexivity.
Qed.

Lemma payout_zero_division_witness :
  payout 1 env_example false
    (mkDB [mkShare 1 "A" 50]
       [mkBlock "h20" 20 60 0 "A" (Some 1) false true false false 0 0] [] [] [])
  = (Retry ZeroDivisionError,
     mkDB [mkShare 1 "A" 50]
       [mkBlock "h20" 20 60 0 "A" (Some 1) false true false false 0 0] [] [] []).
Proof.
  apply (payout_zero_division 1 env_example false _
           (mkBlock "h20" 20 60 0 "A" (Some 1) false true false false 0 0)
           [("A", 50)] 50).
  - reflexivity.
  - reflexivity.
  - left. reflexivity.
Defined.

Lemma payout_committed_rows (fuel : nat) (env : Env) (db db' : DB)
  (block : Block) :
  select_block db = Some block ->
  payout fuel env false db = (Returned, db') ->
  exists l rows,
    payout_locals fuel env db block = Ok l
    /\ payouts db' = (payouts db ++ rows)%list
    /\ map p_user rows = keys (l_user_shares l)
    /\ NoDup (map p_user rows)
    /\ Forall (fun r =>
         dict_get (p_user r) (l_user_shares l) = Some (p_shares r)
         /\ exists s, In s (shares db) /\ s_user s = p_user r) rows
    /\ zsum (map p_shares rows) = zsum (values (l_user_shares l)).
Proof.
  intros Hsel Hrun.
  destruct (payout_committed _ _ _ _ _ Hsel Hrun) as [l [rows [El [Er [Hp _]]]]].
  exists l, rows.
  destruct (payout_locals_shape _ _ _ _ _ El)
    as [T [Ec [_ [_ [_ [Hnd [_ [Hk [_ _]]]]]]]]].
  apply payout_rows_spec in Er.
  pose proof (Forall2_row_users _ _ _ _ _ Er) as Hu. rewrite Hk in Hu.
  assert (Hwin : forall k, In k (keys (l_user_shares l)) ->
                 exists s, In s (shares db) /\ s_user s = k).
  { intros k Hin. unfold count_shares in Ec.
    destruct (last_share db block) as [s0|]; [| discriminate].
    unfold aggregate in Ec.
    pose proof (walk_keys (ledger_rows (Some (s_id s0)) (shares db))
                  (bits_to_shares env (b_bits block) * last_n (config env))
                  [] k) as Hw.
    destruct (walk _ _ _) as [us0 rem]. injection Ec as E1 _. subst us0.
    destruct (Hw Hin) as [[] | [s [Hs Hsu]]].
    exists s. split; [eapply In_ledger_rows; eassumption | assumption]. }
  repeat split; try assumption.
  - now rewrite Hu.
  - assert (Hall : forall r, In r rows -> In (p_user r) (keys (l_user_shares l))).
    { intros r Hr. rewrite <- Hu. now apply in_map. }
    apply Forall_forall. intros r Hr. split; [| now apply Hwin, Hall].
    clear -Er Hr. induction Er as [|it r0 items rows0 Hrow _ IH]; [destruct Hr |].
    destruct Hr as [<- | Hr]; [| auto].
    destruct Hrow as [E1 [_ [_ [E2 _]]]]. now rewrite E1.
  - apply zsum_lookup_keys; [assumption |].
    rewrite <- Hu. clear -Er.
    induction Er as [|it r0 items rows0 Hrow _ IH]; simpl; constructor; [| exact IH].
    destruct Hrow as [E1 [_ [_ [E2 _]]]]. now rewrite E1.
Qed.

(** X3. A committing run writes exactly one [Payout] row for every user of
    the share window and for nobody else: the users of the rows are the
    keys of [user_shares], without repetition; each has shares in the
    ledger; each row records the user's counted shares; and the recorded
    shares add up to the shares counted. *)
Theorem payout_one_row_per_user (fuel : nat) (env : Env) (db db' : DB)
  (block : Block) :
  select_block db = Some block ->
  payout fuel env false db = (Returned, db') ->
  exists l rows,
    payout_locals fuel env db block = Ok l
    /\ payouts db' = (payouts db ++ rows)%list
    /\ map p_user rows = keys (l_user_shares l)
    /\ NoDup (map p_user rows)
    /\ Forall (fun r =>
         dict_get (p_user r) (l_user_shares l) = Some (p_shares r)
         /\ exists s, In s (shares db) /\ s_user s = p_user r) rows
    /\ zsum (map p_shares rows) = zsum (values (l_user_shares l)).
Proof. apply payout_committed_rows. Qed.

Lemma payout_one_row_per_user_witness :
  exists l rows,
    payout_locals 1 env_example db_example block_example = Ok l
    /\ map p_user rows = keys (l_user_shares l)
    /\ zsum (map p_shares rows) = zsum (values (l_user_shares l)).
Proof.
  destruct (payout_one_row_per_user 1 env_example db_example
              (snd (payout 1 env_example false db_example)) block_example)
    as [l [rows [H1 [_ [H3 [_ [_ H6]]]]]]].
  - reflexivity.
  - vm_compute. reflexivity.
  - exists l, rows. repeat split; assumption.
Defined.

Lemma unit_step_lookup (d1 d2 : dict) (u : string) (x : Z) :
  Forall2 unit_step d1 d2 ->
  dict_get u d1 = Some x ->
  exists y, dict_get u d2 = Some y /\ (y = x \/ y = x + 1).
Proof.
  induction 1 as [|[k1 v1] [k2 v2] t1 t2 [Hk Hv] _ IH]; simpl; [discriminate |].
  simpl in Hk, Hv. subst k2.
  destruct (String.eqb u k1); [| exact IH].
  intros [= <-]. eauto.
Qed.

Lemma dict_get_portion (V T : Z) (u : string) (c : Z) (d : dict) :
  dict_get u d = Some c ->
  dict_get u (map (portion V T) d) = Some (c * V / T).
Proof.
  induction d as [|[k v] d IH]; simpl; [discriminate |].
  destruct (String.eqb u k); [intros [= <-]; reflexivity | exact IH].
Qed.

(** X4. In every row a committing run writes, the amount paid plus the
    amount recorded as applied (a donation, or minus a bonus) is the
    user's share of the block before the donation pass, and that share is
    [floor(shares * total_value / counted)] or one unit more, [counted]
    being the shares recorded over all rows of the run. *)
Theorem payout_row_accounting (fuel : nat) (env : Env) (db db' : DB)
  (block : Block) :
  select_block db = Some block ->
  payout fuel env false db = (Returned, db') ->
  exists rows,
    payouts db' = (payouts db ++ rows)%list
    /\ zsum (map p_shares rows) <> 0
    /\ Forall (fun r =>
         p_amount r + p_perc_applied r
         = p_shares r * b_total_value block / zsum (map p_shares rows)
         \/ p_amount r + p_perc_applied r
            = p_shares r * b_total_value block / zsum (map p_shares rows) + 1)
         rows.
Proof.
  intros Hsel Hrun.
  destruct (payout_committed_rows _ _ _ _ _ Hsel Hrun)
    as [l0 [rows0 [El0 [Hp0 [_ [_ [_ Hsum]]]]]]].
  destruct (payout_committed _ _ _ _ _ Hsel Hrun) as [l [rows [El [Er [Hp _]]]]].
  assert (l0 = l) by congruence. subst l0.
  assert (rows0 = rows) by (rewrite Hp in Hp0; eapply app_inv_head; eauto).
  subst rows0.
  exists rows.
  destruct (payout_locals_shape _ _ _ _ _ El)
    as [T [_ [HT0 [HT [_ [Hnd [_ [Hk [_ [Hunits Hacc]]]]]]]]]].
  rewrite Hsum, HT.
  repeat split; try assumption.
  apply payout_rows_spec in Er.
  assert (Hndp : NoDup (keys (user_payouts (l_adjust l)))) by congruence.
  assert (G : forall items rs,
             (forall it, In it items -> In it (user_payouts (l_adjust l))) ->
             Forall2 (row_of block (l_user_shares l) (l_adjust l)) items rs ->
             Forall (fun r =>
               p_amount r + p_perc_applied r
               = p_shares r * b_total_value block / T
               \/ p_amount r + p_perc_applied r
                  = p_shares r * b_total_value block / T + 1) rs).
  { intros items rs Hsub H.
    induction H as [|[u amt] r items rs Hrow _ IH]; constructor.
    - destruct Hrow as [Hu [Ha [_ [Hs [_ Happ]]]]]. simpl in *.
      assert (Hin : In u (keys (l_user_shares l))).
      { rewrite <- Hk. change u with (fst (u, amt)). unfold keys.
        apply in_map. apply Hsub. auto. }
      specialize (Hacc u Hin).
      assert (Eamt : get0 u (user_payouts (l_adjust l)) = amt).
      { unfold get0. rewrite (dict_get_NoDup u amt); auto. }
      destruct (unit_step_lookup _ _ u _ Hunits
                  (dict_get_portion _ T u _ _ Hs)) as [y [Ey Hy]].
      unfold get0 in Hacc at 3. rewrite Ey in Hacc.
      rewrite Ha, Happ. lia.
    - apply IH. intros it Hit. apply Hsub. simpl. auto. }
  apply (G (user_payouts (l_adjust l))); auto.
Qed.

Lemma payout_row_accounting_witness :
  exists rows,
    payouts (snd (payout 1 env_example false db_example))
    = (payouts db_example ++ rows)%list
    /\ zsum (map p_shares rows) <> 0.
Proof.
  destruct (payout_row_accounting 1 env_example db_example
              (snd (payout 1 env_example false db_example)) block_example)
    as [rows [H1 [H2 _]]].
  - reflexivity.
  - vm_compute. reflexivity.
  - exists rows. split; assumption.
Defined.

(** X5. When a run has collected donations and no [donate_address] is
    configured, the commit raises [KeyError] after the rows were built and
    the run is rolled back: nothing is written. *)
Theorem payout_missing_donate_address (fuel : nat) (env : Env) (db : DB)
  (block : Block) (l : Locals) :
  select_block db = Some block ->
  payout_locals fuel env db block = Ok l ->
  donation_total (l_adjust l) > 0 ->
  donate_address (config env) = None ->
  payout fuel env false db = (Retry KeyError, db).
Proof.
  intros Hsel El Hd Hnone.
  unfold payout, payout_body. rewrite Hsel, El. cbn [bind].
  destruct (payout_locals_ok _ _ _ _ _ El) as [Hacc [_ Hfin]].
  destruct (payout_locals_shape _ _ _ _ _ El)
    as [T [_ [_ [_ [_ [_ [_ [Hk [Hperc _]]]]]]]]].
  unfold finish. rewrite Hacc, Z.eqb_refl. cbn [negb].
  rewrite Hfin, Z.eqb_refl. cbn [negb].
  unfold commit.
  destruct (payout_rows_total block (l_user_shares l) (l_adjust l)
              (user_payouts (l_adjust l))) as [rows Er].
  { intros k Hin. rewrite Hk in Hin. auto. }
  rewrite Er. cbn [bind].
  destruct (Z.gtb_spec (donation_total (l_adjust l)) 0); [| lia].
  rewrite Hnone. reflexivity.
Qed.

Lemma payout_missing_donate_address_witness :
  payout 1 (mkEnv (mkConfig 2 (Some 7) None None None) (fun bits => bits))
    false db_seven
  = (Retry KeyError, db_seven).
Proof.
  apply (payout_missing_donate_address 1 _ db_seven
           (mkBlock "h13" 13 60 100 "A" (Some 1) false true false false 0 0)
           (mkLocals [("A", 50)] [("A", 100)] 100
              (mkAdjust [("A", 92)] [("A", 7)] [("A", 8)] 8 0))).
  - reflexivity.
  - vm_compute. reflexivity.
  - reflexivity.
  - reflexivity.
Defined.

Lemma filter_map_length_lt {A : Type} (f : A -> bool) (g : A -> A) (l : list A)
  (x : A) :
  (forall y, f (g y) = true -> f y = true) ->
  In x l -> f x = true -> f (g x) = false ->
  (List.length (filter f (map g l)) < List.length (filter f l))%nat.
Proof.
  intros Hmono.
  assert (Hle : forall l0, (List.length (filter f (map g l0))
                            <= List.length (filter f l0))%nat).
  { induction l0 as [|y l0 IH]; simpl; [lia |].
    destruct (f (g y)) eqn:E.
    - rewrite (Hmono y E). simpl. lia.
    - destruct (f y); simpl; lia. }
  induction l as [|y l IH]; simpl; [tauto |].
  intros [-> | Hin] Hx Hgx.
  - rewrite Hx, Hgx. simpl. specialize (Hle l). lia.
  - specialize (IH Hin Hx Hgx). destruct (f (g y)) eqn:E.
    + rewrite (Hmono y E). simpl. lia.
    + destruct (f y); simpl; lia.
Qed.

(** X6. A committing run settles its block once: afterwards every block with
    the hash of the selected block is processed, strictly fewer blocks are
    unprocessed, a later run writes no further row for that hash, and if
    the block was the only one waiting, a later run is a no-op. *)
Theorem payout_settles_once (fuel : nat) (env : Env) (db db' : DB)
  (block : Block) :
  select_block db = Some block ->
  payout fuel env false db = (Returned, db') ->
  (forall b, In b (blocks db') -> b_hash b = b_hash block ->
     b_processed b = true)
  /\ unproc_blocks db' < unproc_blocks db
  /\ (forall fuel' env' simulate o db'',
        payout fuel' env' simulate db' = (o, db'') ->
        forall p, In p (payouts db'') -> p_block p = b_hash block ->
          In p (payouts db'))
  /\ ((forall b, In b (blocks db) -> unprocessed b = true ->
         b_hash b = b_hash block) ->
      forall fuel' env' simulate,
        payout fuel' env' simulate db' = (Returned, db')).
Proof.
  intros Hsel Hrun.
  destruct (payout_committed _ _ _ _ _ Hsel Hrun) as [l [rows [_ [_ [_ [Hb _]]]]]].
  destruct (select_block_Some _ _ Hsel) as [Hin [Hproc [Hmerged _]]].
  assert (Hdone : forall b, In b (blocks db') -> b_hash b = b_hash block ->
                  b_processed b = true).
  { intros b Hb' Hh. rewrite Hb in Hb'. apply in_map_iff in Hb'.
    destruct Hb' as [b0 [<- _]]. unfold mark_processed in *.
    destruct (String.eqb_spec (b_hash b0) (b_hash block)); [reflexivity |].
    contradiction. }
  assert (Hother : forall b, In b (blocks db') -> unprocessed b = true ->
                   In b (blocks db) /\ b_hash b <> b_hash block).
  { intros b Hb' Hu. rewrite Hb in Hb'. apply in_map_iff in Hb'.
    destruct Hb' as [b0 [<- Hb0]]. unfold mark_processed in *.
    destruct (String.eqb_spec (b_hash b0) (b_hash block)); [discriminate | auto]. }
  split; [exact Hdone |]. split; [| split].
  - unfold unproc_blocks. rewrite Hb. apply inj_lt.
    apply (filter_map_length_lt unprocessed _ (blocks db) block).
    + intros y. unfold mark_processed.
      destruct (String.eqb (b_hash y) (b_hash block)); [discriminate | auto].
    + assumption.
    + unfold unprocessed. now rewrite Hproc, Hmerged.
    + unfold mark_processed. now rewrite String.eqb_refl.
  - intros fuel' env' simulate o db'' Hrun' p Hp Hh.
    destruct (select_block db') as [b'|] eqn:Hsel'.
    + destruct (payout_touches_selected _ _ _ _ _ _ _ Hsel' Hrun') as [Hpay _].
      destruct (Hpay p Hp) as [? | Hb']; [assumption |].
      destruct (select_block_Some _ _ Hsel') as [Hin' [Hp' [Hm' _]]].
      destruct (Hother b' Hin') as [_ Hne];
        [unfold unprocessed; now rewrite Hp', Hm' | congruence].
    + rewrite (payout_noop _ _ _ _ Hsel') in Hrun'.
      injection Hrun' as _ <-. assumption.
  - intros Honly fuel' env' simulate. apply payout_noop.
    apply select_block_None. intros b Hb'.
    destruct (unprocessed b) eqn:Hu; [| reflexivity].
    destruct (Hother b Hb' Hu) as [Hb0 Hne].
    exfalso. apply Hne. apply Honly; [assumption |].
    rewrite Hb in Hb'. apply in_map_iff in Hb'.
    destruct Hb' as [b0 [E Hb1]]. unfold mark_processed in E.
    destruct (String.eqb_spec (b_hash b0) (b_hash block)); subst b;
      [discriminate | assumption].
Qed.

Lemma payout_settles_once_witness :
  unproc_blocks
    (mkDB (shares db_example)
       [mkBlock "h10" 10 60 1000 "A" (Some 3) false false false true 47 166]
       [mkPayout "A" 620 "h10" 80 7 47; mkPayout "B" 499 "h10" 40 (-50) (-166)]
       [mkBonusPayout "pool" 47 (TotalDonations 10) "h10"]
       (donation_percents db_example))
  < unproc_blocks db_example.
Proof.
  destruct (payout_settles_once 1 env_example db_example
              (mkDB (shares db_example)
                 [mkBlock "h10" 10 60 1000 "A" (Some 3) false false false true 47 166]
                 [mkPayout "A" 620 "h10" 80 7 47;
                  mkPayout "B" 499 "h10" 40 (-50) (-166)]
                 [mkBonusPayout "pool" 47 (TotalDonations 10) "h10"]
                 (donation_percents db_example))
              block_example) as [_ [H _]].
  - reflexivity.
  - vm_compute. reflexivity.
  - exact H.
Defined.


(** ** Who gets what in the window *)

Lemma user_amount_cons (u : string) (r : Share) (rows : list Share) :
  user_amount u (r :: rows)
  = (if String.eqb u (s_user r) then s_shares r else 0) + user_amount u rows.
Proof.
  unfold user_amount, total_amount. simpl. rewrite (String.eqb_sym u).
  destruct (String.eqb (s_user r) u); simpl; lia.
Qed.

Lemma user_amount_nonneg (u : string) (rows : list Share) :
  Forall (fun s => 0 <= s_shares s) rows -> 0 <= user_amount u rows.
Proof.
  induction 1 as [|r rows Hr _ IH]; [reflexivity |].
  rewrite user_amount_cons. destruct (String.eqb u (s_user r)); lia.
Qed.

Lemma total_filter_insert_desc (p : Share -> bool) (s : Share) (l : list Share) :
  total_amount (filter p (insert_desc s l))
  = (if p s then s_shares s else 0) + total_amount (filter p l).
Proof.
  unfold total_amount. induction l as [|h t IH]; simpl.
  - destruct (p s); simpl; lia.
  - destruct (s_id h <=? s_id s); simpl.
    + destruct (p s), (p h); simpl; lia.
    + destruct (p h); simpl; rewrite IH; lia.
Qed.

Lemma total_filter_order_by (p : Share -> bool) (l : list Share) :
  total_amount (filter p (order_by_id_desc l)) = total_amount (filter p l).
Proof.
  induction l as [|h t IH]; simpl; [reflexivity |].
  rewrite total_filter_insert_desc, IH.
  unfold total_amount. destruct (p h); simpl; lia.
Qed.

Lemma walk_user_bound (rows : list Share) : forall remain d u,
  Forall (fun s => 0 <= s_shares s) rows -> 0 <= remain ->
  get0 u d <= get0 u (fst (walk rows remain d))
  <= get0 u d + user_amount u rows.
Proof.
  induction rows as [|r rest IH]; intros remain d u Hpos Hrem.
  - simpl. unfold user_amount, total_amount. simpl. lia.
  - apply Forall_cons_iff in Hpos. destruct Hpos as [Hr Hrest].
    pose proof (user_amount_nonneg u rest Hrest) as Hn.
    rewrite user_amount_cons. cbn [walk].
    destruct (Z.gtb_spec remain (s_shares r)); cbn [fst].
    + specialize (IH (remain - s_shares r)
                    (dict_add (s_user r) (s_shares r) d) u Hrest).
      rewrite get0_dict_add in IH.
      destruct (String.eqb u (s_user r)); lia.
    + rewrite get0_dict_add. destruct (String.eqb u (s_user r)); lia.
Qed.

(** X7. With non-negative amounts and a non-negative budget, the walk
    credits no user more than the user submitted in the rows walked, and
    never a negative count; a user with nothing there is credited nothing. *)
Theorem aggregate_user_bound (tbl : list Share) (upper_cursor : option Z)
  (budget : Z) (u : string) :
  Forall (fun s => 0 <= s_shares s) tbl ->
  0 <= budget ->
  0 <= get0 u (fst (aggregate budget upper_cursor tbl))
    <= user_amount u
         match upper_cursor with
         | None => tbl
         | Some start => filter (fun s => s_id s <=? start) tbl
         end.
Proof.
  intros Hpos Hb.
  pose proof (walk_user_bound (ledger_rows upper_cursor tbl) budget [] u
                (ledger_rows_nonneg upper_cursor tbl Hpos) Hb) as H.
  unfold aggregate.
  assert (E : user_amount u (ledger_rows upper_cursor tbl)
              = user_amount u match upper_cursor with
                              | None => tbl
                              | Some start => filter (fun s => s_id s <=? start) tbl
                              end).
  { unfold user_amount. destruct upper_cursor; simpl; apply total_filter_order_by. }
  rewrite E in H. change (get0 u []) with 0 in H. lia.
Qed.

Lemma aggregate_user_bound_witness :
  0 <= get0 "B" (fst (aggregate 120 None ledger_example)) <= 50.
Proof.
  apply (aggregate_user_bound ledger_example None 120 "B").
  - repeat constructor; simpl; lia.
  - lia.
Defined.

(** ** More on cleanup *)

Lemma insert_desc_head (s : Share) (l : list Share) :
  Forall (fun x => s_id x <= s_id s) l -> insert_desc s l = s :: l.
Proof.
  destruct 1 as [|h t Hh _]; simpl; [reflexivity |].
  destruct (Z.leb_spec (s_id h) (s_id s)); [reflexivity | lia].
Qed.

Lemma insert_desc_sorted (s : Share) (l : list Share) :
  id_desc l -> id_desc (insert_desc s l).
Proof.
  induction l as [|h t IH]; simpl; [auto |].
  intros [Hh Ht]. destruct (Z.leb_spec (s_id h) (s_id s)); simpl.
  - repeat split; try assumption. constructor; [assumption |].
    eapply Forall_impl; [| exact Hh]. simpl. intros; lia.
  - split; [| auto].
    apply Forall_forall. intros x Hx. apply In_insert_desc in Hx.
    destruct Hx as [-> | Hx]; [lia |].
    rewrite Forall_forall in Hh. auto.
Qed.

Lemma order_by_sorted (l : list Share) : id_desc (order_by_id_desc l).
Proof.
  induction l as [|h t IH]; simpl; [exact I | now apply insert_desc_sorted].
Qed.

Lemma filter_sorted (p : Share -> bool) (l : list Share) :
  id_desc l -> id_desc (filter p l).
Proof.
  induction l as [|h t IH]; simpl; [auto |].
  intros [Hh Ht]. destruct (p h); simpl; [| auto].
  split; [| auto]. apply Forall_forall. intros x Hx.
  apply filter_In in Hx. rewrite Forall_forall in Hh. apply Hh. tauto.
Qed.

Lemma filter_insert_desc (p : Share -> bool) (s : Share) (l : list Share) :
  id_desc l ->
  filter p (insert_desc s l)
  = if p s then insert_desc s (filter p l) else filter p l.
Proof.
  induction l as [|h t IH]; simpl.
  - destruct (p s); reflexivity.
  - intros [Hh Ht]. destruct (Z.leb_spec (s_id h) (s_id s)); simpl.
    + destruct (p s) eqn:Ps, (p h) eqn:Ph; simpl;
        rewrite ?Ps, ?Ph; try reflexivity.
      * destruct (Z.leb_spec (s_id h) (s_id s)); [reflexivity | lia].
      * symmetry. apply insert_desc_head.
        apply Forall_forall. intros x Hx. apply filter_In in Hx.
        rewrite Forall_forall in Hh. specialize (Hh x (proj1 Hx)). lia.
    + rewrite (IH Ht). destruct (p s) eqn:Ps, (p h) eqn:Ph; simpl;
        try reflexivity.
      destruct (Z.leb_spec (s_id h) (s_id s)); [lia | reflexivity].
Qed.

Lemma order_by_filter (p : Share -> bool) (l : list Share) :
  order_by_id_desc (filter p l) = filter p (order_by_id_desc l).
Proof.
  induction l as [|h t IH]; simpl; [reflexivity |].
  rewrite filter_insert_desc by apply order_by_sorted.
  destruct (p h); simpl; now rewrite IH.
Qed.

Lemma id_desc_before (pre : list Share) (r : Share) (post : list Share) :
  id_desc (pre ++ r :: post) -> Forall (fun s => s_id r <= s_id s) pre.
Proof.
  induction pre as [|h t IH]; simpl; [constructor |].
  intros [Hh Ht]. constructor; [| auto].
  rewrite Forall_forall in Hh. apply Hh. apply in_or_app. right. simpl. auto.
Qed.

(** Where the search for the stale id stops *)
Lemma find_stale_stop (rows : list Share) : forall counted total st,
  find_stale rows counted total = st -> st <> 0 ->
  exists pre r post,
    rows = (pre ++ r :: post)%list /\ s_id r = st
    /\ total <= counted + total_amount pre + s_shares r
    /\ forall post', find_stale (pre ++ r :: post') counted total = st.
Proof.
  induction rows as [|h t IH]; intros counted total st; simpl.
  - intros <- H. congruence.
  - destruct (Z.geb_spec (counted + s_shares h) total) as [Hge | Hlt].
    + intros <- _. exists [], h, t. unfold total_amount. simpl.
      repeat split; try lia.
      intros post'. destruct (Z.geb_spec (counted + s_shares h) total);
        [reflexivity | lia].
    + intros H Hnz. destruct (IH _ _ _ H Hnz) as [pre [r [post [E [Hid [Hle Hpost]]]]]].
      exists (h :: pre), r, post. subst t. unfold total_amount in *. simpl.
      repeat split; try assumption; try lia.
      intros post'. destruct (Z.geb_spec (counted + s_shares h) total);
        [lia | apply Hpost].
Qed.

Lemma filter_keep_prefix (st : Z) (pre : list Share) (r : Share)
  (post : list Share) :
  id_desc (pre ++ r :: post) -> s_id r = st ->
  filter (fun s => negb (s_id s <? st)) (pre ++ r :: post)
  = (pre ++ r :: filter (fun s => negb (s_id s <? st)) post)%list.
Proof.
  intros Hs Hid. apply id_desc_before in Hs.
  rewrite filter_app. simpl.
  destruct (Z.ltb_spec (s_id r) st); [lia |]. simpl. f_equal.
  induction Hs as [|h t Hh _ IH]; simpl; [reflexivity |].
  destruct (Z.ltb_spec (s_id h) st); [lia |]. simpl. now rewrite IH.
Qed.

(** X8. A cleanup run in simulate mode leaves the database as it found it. *)
Theorem cleanup_simulate_never_writes (cfg : Config)
  (cached : option spec_float) (db : DB) :
  cleanup cfg cached true db = (Returned, db)
  \/ exists e, cleanup cfg cached true db = (Retry e, db).
Proof.
  unfold cleanup, cleanup_body.
  destruct (cleanup_diff cached) as [diff|]; [| left; reflexivity].
  destruct (cleanup_total_shares cfg diff (unproc_blocks db)) as [total| e |] eqn:E;
    cbn [bind run_task].
  - left. destruct (_ =? 0); reflexivity.
  - right. eauto.
  - exfalso. unfold cleanup_total_shares in E.
    pose proof (float_of_int_back
                  (config_get (cleanup_n cfg) 4 + last_n cfg
                   + unproc_blocks db * last_n cfg)) as Hb.
    destruct (PyFloat.float_of_int _); cbn [bind] in E;
      try discriminate; [| contradiction].
    unfold PyFloat.int_round in E.
    destruct (PyFloat.fmul _ _) as [| | | s m e]; try discriminate.
    destruct (0 <=? e); discriminate.
Qed.

(** X9. With non-negative amounts, a cleanup run that deletes keeps at
    least the number of shares it computed as its budget: the entries from
    the boundary id upwards add up to [total_shares] or more. *)
Theorem cleanup_retains_budget (cfg : Config) (cached : option spec_float)
  (db : DB) (stale_id : Z) :
  Forall (fun s => 0 <= s_shares s) (shares db) ->
  cleanup_stale_id cfg cached db = Some stale_id ->
  exists total_shares,
    cleanup_total_shares cfg f1100 (unproc_blocks db) = Ok total_shares
    /\ shares (snd (cleanup cfg cached false db))
       = filter (fun s => negb (s_id s <? stale_id)) (shares db)
    /\ total_shares
       <= total_amount (shares (snd (cleanup cfg cached false db))).
Proof.
  intros Hpos Hst.
  unfold cleanup, cleanup_body. unfold cleanup_stale_id in Hst.
  unfold cleanup_diff in *.
  destruct (cleanup_total_shares cfg f1100 (unproc_blocks db)) as [total| |];
    try discriminate.
  cbn [bind]. exists total.
  destruct (Z.eqb_spec (find_stale (ledger_rows None (shares db)) 0 total) 0)
    as [| Hnz]; [discriminate |].
  injection Hst as Hst. cbn [run_task snd shares ledger_rows] in *.
  rewrite Hst. repeat split.
  destruct (find_stale_stop _ _ _ _ Hst)
    as [pre [r [post [E [Hid [Hle _]]]]]]; [congruence |].
  rewrite <- (total_filter_order_by _ (shares db)).
  pose proof (order_by_sorted (shares db)) as Hs.
  pose proof (ledger_rows_nonneg None (shares db) Hpos) as Hp.
  cbn [ledger_rows] in Hp.
  rewrite E in *. rewrite (filter_keep_prefix stale_id) by assumption.
  apply Forall_app in Hp. destruct Hp as [_ Hp].
  apply Forall_cons_iff in Hp. destruct Hp as [_ Hp].
  assert (0 <= total_amount (filter (fun s => negb (s_id s <? stale_id)) post)).
  { clear -Hp. induction Hp as [|h t Hh _ IH]; simpl; [reflexivity |].
    destruct (negb _); [| exact IH]. unfold total_amount in *. simpl. lia. }
  unfold total_amount in *. rewrite map_app, zsum_app. simpl. lia.
Qed.

Lemma cleanup_retains_budget_witness :
  exists total_shares,
    cleanup_total_shares cfg_example f1100 (unproc_blocks db_cleanup)
    = Ok total_shares
    /\ total_shares
       <= total_amount (shares (snd (cleanup cfg_example None false db_cleanup))).
Proof.
  destruct (cleanup_retains_budget cfg_example None db_cleanup 2)
    as [total [H1 [_ H3]]].
  - repeat constructor; simpl; lia.
  - vm_compute. reflexivity.
  - exists total. split; assumption.
Defined.


Lemma unprocessed_clear_cursor (st : Z) (b : Block) :
  unprocessed (clear_cursor st b) = unprocessed b.
Proof.
  unfold clear_cursor. destruct (b_last_share_id b); [| reflexivity].
  destruct (_ <=? st); reflexivity.
Qed.

Lemma unproc_blocks_clear_cursor (st : Z) (l : list Block) :
  List.length (filter unprocessed (map (clear_cursor st) l))
  = List.length (filter unprocessed l).
Proof.
  induction l as [|b l IH]; simpl; [reflexivity |].
  rewrite unprocessed_clear_cursor. destruct (unprocessed b); simpl; now rewrite IH.
Qed.

Lemma clear_cursor_idem (st : Z) (b : Block) :
  clear_cursor st (clear_cursor st b) = clear_cursor st b.
Proof.
  destruct (b_last_share_id b) as [c|] eqn:E.
  - destruct (Z.leb_spec c st) as [Hle | Hgt].
    + unfold clear_cursor. rewrite E.
      destruct (Z.leb_spec c st); [reflexivity | lia].
    + assert (H : clear_cursor st b = b).
      { unfold clear_cursor. rewrite E.
        destruct (Z.leb_spec c st); [lia | reflexivity]. }
      now rewrite !H.
  - assert (H : clear_cursor st b = b) by (unfold clear_cursor; now rewrite E).
    now rewrite !H.
Qed.

Lemma filter_idem {A : Type} (p : A -> bool) (l : list A) :
  filter p (filter p l) = filter p l.
Proof.
  induction l as [|x l IH]; simpl; [reflexivity |].
  destruct (p x) eqn:E; simpl; [rewrite E, IH |]; auto.
Qed.

(** X10. Cleanup is safe to run again: on the database a run leaves behind,
    a second run with the same configuration changes nothing, whatever the
    cache holds.  It settles on the same boundary id, below which nothing
    is left. *)
Theorem cleanup_idempotent (cfg : Config) (cached cached' : option spec_float)
  (simulate : bool) (db : DB) :
  snd (cleanup cfg cached' simulate (snd (cleanup cfg cached simulate db)))
  = snd (cleanup cfg cached simulate db).
Proof.
  destruct (cleanup_result cfg cached simulate db)
    as [E | [st [Hnz [-> [Hst E]]]]].
  - rewrite E. exact E.
  - rewrite E. cbn [snd].
    unfold cleanup_stale_id, cleanup_diff in Hst.
    unfold cleanup, cleanup_body, cleanup_diff, unproc_blocks.
    cbn [blocks shares]. rewrite unproc_blocks_clear_cursor.
    fold (unproc_blocks db).
    destruct (cleanup_total_shares cfg f1100 (unproc_blocks db)) as [total| |];
      try discriminate.
    cbn [bind ledger_rows] in *.
    destruct (Z.eqb_spec (find_stale (order_by_id_desc (shares db)) 0 total) 0);
      [discriminate |].
    injection Hst as Hst.
    destruct (find_stale_stop _ _ _ _ Hst Hnz)
      as [pre [r [post [Erows [Hid [_ Hpost]]]]]].
    assert (Hagain : find_stale
                       (order_by_id_desc
                          (filter (fun s => negb (s_id s <? st)) (shares db)))
                       0 total = st).
    { rewrite order_by_filter, Erows.
      rewrite (filter_keep_prefix st); [apply Hpost | | assumption].
      rewrite <- Erows. apply order_by_sorted. }
    rewrite Hagain.
    destruct (Z.eqb_spec st 0); [contradiction |].
    cbn [run_task snd payouts bonus_payouts donation_percents].
    rewrite filter_idem, map_map.
    f_equal. apply map_ext. intros b. apply clear_cursor_idem.
Qed.

Example cleanup_twice_example :
  snd (cleanup cfg_example None false
         (snd (cleanup cfg_example None false db_cleanup)))
  = mkDB [mkShare 2 "B" 600000000]
         [mkBlock "h14" 14 60 1000 "A" None false false false false 0 0]
         [] [] [].
Proof. vm_compute. reflexivity. Qed.



(* ================================================================== *)
(** ** The block lifecycle poll *)

Lemma lifecycle_step_refl (b : Block) : lifecycle_step b b.
Proof. unfold lifecycle_step. auto. Qed.

Lemma check_block_step (T H : Z) (node : Node) (b b' : Block) :
  pending b = true ->
  check_block T H node b = inr b' -> lifecycle_step b b'.
Proof.
  intros Hp. unfold check_block.
  destruct (getblock node (b_hash b)) as [[c|]|]; try discriminate.
  - destruct (c >? T); [| destruct (_ && _)]; intros [= <-];
      unfold lifecycle_step; rewrite Hp; repeat split; auto; discriminate.
  - intros [= <-]. unfold lifecycle_step. rewrite Hp.
    repeat split; auto; discriminate.
Qed.

Lemma check_blocks_step (T H : Z) (node : Node) (bs : list Block) :
  forall bs', check_blocks T H node bs = inr bs' ->
  Forall2 lifecycle_step bs bs'.
Proof.
  induction bs as [|b rest IH]; intros bs'; cbn [check_blocks].
  - intros [= <-]. constructor.
  - destruct (pending b) eqn:Hp.
    + destruct (check_block T H node b) as [e|b0] eqn:Eb; [discriminate |].
      destruct (check_blocks T H node rest) as [e|rest']; [discriminate |].
      intros [= <-]. constructor; [| auto].
      eapply check_block_step; eassumption.
    + destruct (check_blocks T H node rest) as [e|rest']; [discriminate |].
      intros [= <-]. constructor; [apply lifecycle_step_refl | auto].
Qed.

Lemma check_blocks_again (T H : Z) (node : Node) (bs : list Block) :
  forall bs', check_blocks T H node bs = inr bs' ->
  check_blocks T H node bs' = inr bs'.
Proof.
  induction bs as [|b rest IH]; intros bs'; cbn [check_blocks].
  - intros [= <-]. reflexivity.
  - destruct (pending b) eqn:Hp.
    + destruct (check_block T H node b) as [e|b0] eqn:Eb; [discriminate |].
      destruct (check_blocks T H node rest) as [e|rest'] eqn:Er; [discriminate |].
      intros [= <-]. cbn [check_blocks]. rewrite (IH rest' eq_refl).
      assert (Hb0 : (if pending b0 then check_block T H node b0 else inr b0)
                    = inr b0); [| now rewrite Hb0].
      unfold check_block in Eb.
      destruct (getblock node (b_hash b)) as [[c|]|] eqn:Eg; try discriminate.
      * destruct (c >? T) eqn:E1.
        { injection Eb as <-. unfold pending. simpl. reflexivity. }
        destruct (_ && _) eqn:E2; injection Eb as <-.
        { unfold pending. simpl. now rewrite andb_false_r. }
        rewrite Hp. unfold check_block. now rewrite Eg, E1, E2.
      * injection Eb as <-. unfold pending. simpl. now rewrite andb_false_r.
    + destruct (check_blocks T H node rest) as [e|rest'] eqn:Er; [discriminate |].
      intros [= <-]. cbn [check_blocks]. now rewrite Hp, (IH rest' eq_refl).
Qed.

(** X11. Whatever the node answers, a poll keeps the ledger, the payouts and
    the number and order of the blocks; of a block it changes nothing but
    the [mature] and [orphan] flags; a block that is already mature or
    orphan is left alone; and a pending block gets at most one of the two
    flags.  A poll that fails changes nothing at all. *)
Theorem update_block_state_frame (mature_diff : Z) (node : Node) (db : DB) :
  Forall2 lifecycle_step (blocks db)
    (blocks (snd (update_block_state mature_diff node db)))
  /\ shares (snd (update_block_state mature_diff node db)) = shares db
  /\ payouts (snd (update_block_state mature_diff node db)) = payouts db
  /\ (fst (update_block_state mature_diff node db) <> None ->
      snd (update_block_state mature_diff node db) = db).
Proof.
  assert (Hrefl : forall l, Forall2 lifecycle_step l l).
  { induction l; constructor; [apply lifecycle_step_refl | assumption]. }
  unfold update_block_state.
  destruct (getblockcount node) as [H|]; cbn [fst snd]; [| auto].
  destruct (check_blocks mature_diff H node (blocks db)) as [e|bs] eqn:E;
    cbn [fst snd blocks shares payouts]; [auto |].
  repeat split; [now apply (check_blocks_step mature_diff H node) | congruence].
Qed.

(** X12. A poll is safe to repeat: against the same answers of the node, a
    second poll on the database the first one left gives the same outcome
    and the same database. *)
Theorem update_block_state_idempotent (mature_diff : Z) (node : Node) (db : DB) :
  update_block_state mature_diff node
    (snd (update_block_state mature_diff node db))
  = update_block_state mature_diff node db.
Proof.
  unfold update_block_state.
  destruct (getblockcount node) as [H|]; cbn [snd]; [| reflexivity].
  destruct (check_blocks mature_diff H node (blocks db)) as [e|bs] eqn:E;
    cbn [snd blocks].
  - now rewrite E.
  - now rewrite (check_blocks_again _ _ _ _ _ E).
Qed.

(** X13. A poll is all or nothing: when the answer for one pending block
    comes without ['confirmations'], the task fails and no block is
    updated, not even those the loop had already decided. *)
Theorem update_block_state_all_or_nothing (mature_diff blockheight : Z)
  (node : Node) (db : DB) (b : Block) :
  getblockcount node = Answer blockheight ->
  In b (blocks db) -> pending b = true ->
  getblock node (b_hash b) = Answer None ->
  update_block_state mature_diff node db = (Some NoConfirmations, db).
Proof.
  intros Hc Hin Hp Hg. unfold update_block_state. rewrite Hc.
  assert (E : check_blocks mature_diff blockheight node (blocks db)
              = inl NoConfirmations); [| now rewrite E].
  assert (Herr : forall bs e,
             check_blocks mature_diff blockheight node bs = inl e ->
             e = NoConfirmations).
  { induction bs as [|b0 rest IH]; intros e; cbn [check_blocks]; [discriminate |].
    destruct (pending b0).
    - unfold check_block.
      destruct (getblock node (b_hash b0)) as [[c|]|].
      + destruct (c >? mature_diff); [| destruct (_ && _)];
          (destruct (check_blocks _ _ _ rest) eqn:Er;
           [intros [= <-]; eauto | discriminate]).
      + intros [= <-]. reflexivity.
      + destruct (check_blocks _ _ _ rest) eqn:Er;
          [intros [= <-]; eauto | discriminate].
    - destruct (check_blocks _ _ _ rest) eqn:Er;
        [intros [= <-]; eauto | discriminate]. }
  induction (blocks db) as [|b0 rest IH]; [destruct Hin |].
  cbn [check_blocks]. destruct Hin as [-> | Hin].
  - rewrite Hp. unfold check_block. now rewrite Hg.
  - specialize (IH Hin).
    destruct (if pending b0 then check_block mature_diff blockheight node b0
              else inr b0) as [e|b1] eqn:E0.
    + f_equal. apply (Herr [b0] e). cbn [check_blocks]. now rewrite E0.
    + now rewrite IH.
Qed.

Lemma update_block_state_all_or_nothing_witness :
  update_block_state 5
    (mkNode (Answer 30)
       (fun h => if String.eqb h "h12" then Answer None else CoinRPCException)
       (fun _ => CoinRPCException))
    (mkDB [] [block_example; orphan_block;
              mkBlock "h12" 12 60 1000 "A" None false false false false 0 0]
       [] [] [])
  = (Some NoConfirmations,
     mkDB [] [block_example; orphan_block;
              mkBlock "h12" 12 60 1000 "A" None false false false false 0 0]
       [] [] []).
Proof.
  apply (update_block_state_all_or_nothing 5 30 _ _
           (mkBlock "h12" 12 60 1000 "A" None false false false false 0 0)).
  - reflexivity.
  - simpl. auto.
  - reflexivity.
  - reflexivity.
Defined.

Lemma update_block_state_steps (mature_diff : Z) (node : Node) (db : DB) :
  Forall2 lifecycle_step (blocks db)
    (blocks (snd (update_block_state mature_diff node db))).
Proof.
  assert (Hrefl : forall l, Forall2 lifecycle_step l l).
  { induction l; constructor; [apply lifecycle_step_refl | assumption]. }
  unfold update_block_state.
  destruct (getblockcount node) as [H|]; cbn [snd]; [| auto].
  destruct (check_blocks mature_diff H node (blocks db)) as [e|bs] eqn:E;
    cbn [snd blocks]; [auto |].
  now apply (check_blocks_step mature_diff H node).
Qed.

Lemma select_after_step (l l' : list Block) :
  Forall2 lifecycle_step l l' ->
  match first_by_height (filter unprocessed l),
        first_by_height (filter unprocessed l') with
  | None, None => True
  | Some m, Some m' => lifecycle_step m m'
  | _, _ => False
  end.
Proof.
  assert (Hsame : forall b b', lifecycle_step b b' ->
            unprocessed b' = unprocessed b /\ b_height b' = b_height b).
  { intros b b' [H _].
    assert (E1 : b_processed (set_mature (set_orphan b'))
                 = b_processed (set_mature (set_orphan b))) by now rewrite H.
    assert (E2 : b_merged (set_mature (set_orphan b'))
                 = b_merged (set_mature (set_orphan b))) by now rewrite H.
    assert (E3 : b_height (set_mature (set_orphan b'))
                 = b_height (set_mature (set_orphan b))) by now rewrite H.
    simpl in E1, E2, E3. unfold unprocessed. now rewrite E1, E2, E3. }
  induction 1 as [|b b' l l' Hb _ IH]; simpl; [exact I |].
  destruct (Hsame _ _ Hb) as [Hu Hh]. rewrite Hu.
  destruct (unprocessed b); [| exact IH]. simpl.
  destruct (first_by_height (filter unprocessed l)) as [m|],
           (first_by_height (filter unprocessed l')) as [m'|];
    try contradiction; [| assumption].
  destruct (Hsame _ _ IH) as [_ Hh']. rewrite Hh, Hh'.
  destruct (b_height b <=? b_height m); assumption.
Qed.

(** X14. The poll has no say in what [payout] settles next: the block
    selected after a poll is the block selected before it (the same hash,
    height, value and cursor), whatever the poll made of its [mature] and
    [orphan] flags. *)
Theorem update_block_state_keeps_selection (mature_diff : Z) (node : Node)
  (db : DB) :
  match select_block db,
        select_block (snd (update_block_state mature_diff node db)) with
  | None, None => True
  | Some block, Some block' =>
      b_hash block' = b_hash block /\ b_height block' = b_height block
      /\ b_total_value block' = b_total_value block
      /\ b_last_share_id block' = b_last_share_id block
  | _, _ => False
  end.
Proof.
  pose proof (update_block_state_steps mature_diff node db) as Hstep.
  apply select_after_step in Hstep. unfold select_block.
  destruct (first_by_height (filter unprocessed (blocks db))) as [m|],
           (first_by_height _) as [m'|]; try assumption.
  destruct Hstep as [H _].
  repeat split;
    [change (b_hash m') with (b_hash (set_mature (set_orphan m')))
    |change (b_height m') with (b_height (set_mature (set_orphan m')))
    |change (b_total_value m') with (b_total_value (set_mature (set_orphan m')))
    |change (b_last_share_id m')
       with (b_last_share_id (set_mature (set_orphan m')))];
    now rewrite H.
Qed.

(** ** Transactions *)

(** X15. [update_coin_transaction] keeps the transactions and their ids, never
    takes a confirmation back, confirms a transaction exactly when the
    node reports six confirmations or more for it, and changes nothing
    when it is run again against the same answers. *)
Theorem update_coin_transaction_confirms (node : Node) (txs : list Transaction) :
  map t_txid (update_coin_transaction node txs) = map t_txid txs
  /\ Forall2 (fun tx tx' =>
       t_confirmed tx'
       = t_confirmed tx
         || match reported node (t_txid tx) with
            | Some confirmations => confirmations >=? 6
            | None => false
            end)
       txs (update_coin_transaction node txs)
  /\ update_coin_transaction node (update_coin_transaction node txs)
     = update_coin_transaction node txs.
Proof.
  unfold update_coin_transaction, reported.
  induction txs as [|tx txs [IH1 [IH2 IH3]]]; [repeat constructor |].
  cbn [map]. split; [| split].
  - rewrite IH1. f_equal.
    destruct (t_confirmed tx); [reflexivity |].
    destruct (gettransaction node (t_txid tx)) as [t|]; [| reflexivity].
    destruct (_ >=? 6); reflexivity.
  - constructor; [| exact IH2].
    destruct (t_confirmed tx) eqn:Ec; [now rewrite Ec |].
    destruct (gettransaction node (t_txid tx)) as [t|]; [| reflexivity].
    destruct (_ >=? 6); [reflexivity | assumption].
  - rewrite IH3. f_equal.
    destruct (t_confirmed tx) eqn:Ec; [now rewrite Ec |].
    destruct (gettransaction node (t_txid tx)) as [t|] eqn:Eg.
    + destruct (config_get t 0 >=? 6) eqn:E6; simpl; [reflexivity |].
      now rewrite Ec, Eg, E6.
    + simpl. now rewrite Eg.
Qed.


(* ================================================================== *)
(** ** Caches and minute counters *)

Lemma dict_get_dict_set (u k : string) (v : Z) (d : dict) :
  dict_get u (dict_set k v d)
  = if String.eqb u k then Some v else dict_get u d.
Proof.
  induction d as [|[k' x] d IH]; simpl.
  - destruct (String.eqb u k); reflexivity.
  - destruct (String.eqb_spec k k') as [-> | Hk]; simpl.
    + destruct (String.eqb u k'); reflexivity.
    + destruct (String.eqb_spec u k') as [-> | Hu].
      * destruct (String.eqb_spec k' k); [congruence | reflexivity].
      * exact IH.
Qed.

Lemma dict_get_setdefault_other (u k : string) (v : Z) (d : dict) :
  u <> k -> dict_get u (dict_setdefault k v d) = dict_get u d.
Proof.
  intros Hne. induction d as [|[k' x] d IH]; simpl.
  - destruct (String.eqb_spec u k); [contradiction | reflexivity].
  - destruct (String.eqb_spec k k') as [-> | Hk]; simpl; [reflexivity |].
    destruct (String.eqb u k'); [reflexivity | exact IH].
Qed.

Lemma dict_get_app (u : string) (d1 d2 : dict) :
  dict_get u (d1 ++ d2)%list
  = match dict_get u d1 with
    | Some v => Some v
    | None => dict_get u d2
    end.
Proof.
  induction d1 as [|[k x] d1 IH]; simpl; [reflexivity |].
  destruct (String.eqb u k); [reflexivity | exact IH].
Qed.

Lemma user_donations_lookup (default : Z) (rows : dict) : forall acc,
  exists d,
    user_donations (Some default) rows acc = Ok d
    /\ forall u,
         dict_get u d
         = match dict_get u (rev rows) with
           | Some v => Some v
           | None => dict_get u acc
           end.
Proof.
  induction rows as [|[user perc] rest IH]; intros acc; cbn [user_donations].
  - exists acc. split; [reflexivity | intros u; reflexivity].
  - destruct (IH (dict_set user perc (dict_setdefault user default acc)))
      as [d [E H]].
    exists d. split; [exact E |]. intros u. rewrite H.
    cbn [rev]. rewrite dict_get_app. simpl.
    destruct (dict_get u (rev rest)); [reflexivity |].
    rewrite dict_get_dict_set.
    destruct (String.eqb_spec u user); [reflexivity |].
    now apply dict_get_setdefault_other.
Qed.

(** X16. With a default configured, the dict [cache_user_donation] caches
    maps every user of the table to the percentage of the user's last row
    and holds nobody else; the default never gets into it.  With no
    default configured the task raises [KeyError] as soon as the table has
    one row, and caches an empty dict when it has none. *)
Theorem cache_user_donation_lookup (default_perc : option Z) (rows : dict) :
  match default_perc, rows with
  | None, _ :: _ => cache_user_donation default_perc rows = Raise KeyError
  | None, [] => cache_user_donation default_perc rows = Ok []
  | Some _, _ =>
      exists d,
        cache_user_donation default_perc rows = Ok d
        /\ forall u, dict_get u d = dict_get u (rev rows)
  end.
Proof.
  unfold cache_user_donation.
  destruct default_perc as [default|].
  - destruct (user_donations_lookup default rows []) as [d [E H]].
    exists d. split; [exact E |]. intros u. rewrite H.
    destruct (dict_get u (rev rows)); reflexivity.
  - destruct rows as [|[user perc] rest]; reflexivity.
Qed.

Lemma call_if_amount (typ : minute_type) (user_ : string) (amount : Z) :
  zsum (map cc_amount (call_if typ user_ amount)) = amount
  /\ Forall (fun c => cc_amount c <> 0 /\ cc_typ c = typ /\ cc_user c = user_)
       (call_if typ user_ amount).
Proof.
  unfold call_if. destruct (Z.eqb_spec amount 0); simpl.
  - split; [lia | constructor].
  - split; [lia |]. repeat constructor. assumption.
Qed.

(** X17. [add_one_minute] records every share it is given once: the amounts
    counted as rejects add up to [dup_shares + low_diff_shares +
    stale_shares], for the pool (kept apart by kind) as for a user (as one
    total), the amounts counted as valid to [valid_shares], and no call is
    made for an amount of zero. *)
Theorem add_one_minute_conserves (user : string)
  (valid_shares dup_shares low_diff_shares stale_shares : Z) :
  zsum (map cc_amount
          (filter is_reject
             (add_one_minute user valid_shares dup_shares low_diff_shares
                stale_shares)))
  = dup_shares + low_diff_shares + stale_shares
  /\ zsum (map cc_amount
             (filter (fun c => negb (is_reject c))
                (add_one_minute user valid_shares dup_shares low_diff_shares
                   stale_shares)))
     = valid_shares
  /\ Forall (fun c => cc_amount c <> 0)
       (add_one_minute user valid_shares dup_shares low_diff_shares
          stale_shares).
Proof.
  assert (Hf : forall typ u amt,
             filter is_reject (call_if typ u amt)
             = match typ with
               | OneMinuteReject => call_if typ u amt
               | OneMinuteShare => []
               end
             /\ filter (fun c => negb (is_reject c)) (call_if typ u amt)
                = match typ with
                  | OneMinuteReject => []
                  | OneMinuteShare => call_if typ u amt
                  end).
  { intros typ u amt. unfold call_if.
    destruct (amt =? 0), typ; split; reflexivity. }
  assert (Hnz : forall typ u amt,
             Forall (fun c => cc_amount c <> 0) (call_if typ u amt)).
  { intros typ u amt. destruct (call_if_amount typ u amt) as [_ H].
    eapply Forall_impl; [| exact H]. simpl. tauto. }
  unfold add_one_minute.
  destruct (String.eqb user "pool").
  - rewrite !filter_app, !map_app, !zsum_app.
    repeat rewrite (proj1 (Hf _ _ _)). repeat rewrite (proj2 (Hf _ _ _)).
    repeat rewrite (proj1 (call_if_amount _ _ _)).
    simpl. repeat split; try lia.
    repeat (apply Forall_app; split); apply Hnz.
  - rewrite !filter_app, !map_app, !zsum_app.
    repeat rewrite (proj1 (Hf _ _ _)). repeat rewrite (proj2 (Hf _ _ _)).
    repeat rewrite (proj1 (call_if_amount _ _ _)).
    simpl. repeat split; try lia.
    repeat (apply Forall_app; split); apply Hnz.
Qed.

(** X18. A notification of a block height is taken once: delivered again
    while the cached height is still there, with whatever bits and reward,
    it leaves the cache as the first delivery left it, so the difficulty
    window is not pushed twice. *)
Theorem new_block_redelivery (bits_to_difficulty : Z -> spec_float)
  (blockheight bits bits' : Z) (reward reward' : option Z) (c : Cache) :
  new_block bits_to_difficulty blockheight bits' reward'
    (new_block bits_to_difficulty blockheight bits reward c)
  = new_block bits_to_difficulty blockheight bits reward c.
Proof.
  unfold new_block at 2 3.
  remember (match c_blockheight c with
            | Some h => if h =? 0 then 0 else h
            | None => 0
            end) as last eqn:El.
  destruct (Z.eqb_spec blockheight last) as [E | Hne].
  - unfold new_block. rewrite <- El.
    destruct (Z.eqb_spec blockheight last); [reflexivity | contradiction].
  - unfold new_block. cbn [c_blockheight].
    destruct (Z.eqb_spec blockheight 0) as [-> | H0]; [reflexivity |].
    now rewrite Z.eqb_refl.
Qed.

(** X19. The difficulty window in the cache never grows beyond 501 entries:
    a notification that is taken puts its bits in front and keeps the 500
    newest of the entries that were there; a first notification of height
    0 on an empty cache is not taken. *)
Theorem new_block_window (bits_to_difficulty : Z -> spec_float)
  (blockheight bits : Z) (reward : option Z) (c : Cache) :
  (List.length (c_block_cache c) <= 501 ->
   List.length (c_block_cache
                  (new_block bits_to_difficulty blockheight bits reward c))
   <= 501)%nat
  /\ (new_block bits_to_difficulty blockheight bits reward c = c
      \/ c_blockheight (new_block bits_to_difficulty blockheight bits reward c)
         = Some blockheight
         /\ c_block_cache
              (new_block bits_to_difficulty blockheight bits reward c)
            = bits :: firstn 500 (c_block_cache c))
  /\ (c_blockheight c = None -> blockheight = 0 ->
      new_block bits_to_difficulty blockheight bits reward c = c).
Proof.
  unfold new_block.
  remember (match c_blockheight c with
            | Some h => if h =? 0 then 0 else h
            | None => 0
            end) as last eqn:El.
  destruct (Z.eqb_spec blockheight last) as [E | Hne].
  - repeat split; auto.
  - cbn [c_block_cache c_blockheight]. split; [| split].
    + intros _. apply firstn_le_length.
    + right. split; reflexivity.
    + intros Hc H0. rewrite Hc in El. congruence.
Qed.


(* ================================================================== *)
(** ** Worker status and the offline check *)

Lemma same_worker_spec (user worker : string) (s : Status) :
  same_worker user worker s = true <-> st_user s = user /\ st_worker s = worker.
Proof.
  unfold same_worker. rewrite andb_true_iff, !String.eqb_eq. tauto.
Qed.

Lemma find_append {A : Type} (f : A -> bool) (l1 l2 : list A) :
  find f (l1 ++ l2)
  = match find f l1 with
    | Some x => Some x
    | None => find f l2
    end.
Proof.
  induction l1 as [|x l1 IH]; simpl; [reflexivity |].
  destruct (f x); [reflexivity | exact IH].
Qed.

(** X20. After a status message of a worker, the row found for the worker is
    the one just received; the rows of other workers are as they were; a
    worker that had one row, or none, has exactly one; and the same
    message delivered again changes nothing. *)
Theorem agent_receive_status_upsert (address worker status : string) (dt : Z)
  (tbl : list Status) :
  find (same_worker address worker)
    (agent_receive_status address worker status dt tbl)
  = Some (mkStatus address worker status dt)
  /\ filter (fun s => negb (same_worker address worker s))
       (agent_receive_status address worker status dt tbl)
     = filter (fun s => negb (same_worker address worker s)) tbl
  /\ List.length (filter (same_worker address worker)
                    (agent_receive_status address worker status dt tbl))
     = Nat.max 1 (List.length (filter (same_worker address worker) tbl))
  /\ agent_receive_status address worker status dt
       (agent_receive_status address worker status dt tbl)
     = agent_receive_status address worker status dt tbl.
Proof.
  set (same := same_worker address worker).
  set (new := mkStatus address worker status dt).
  set (upd := fun s => if same s then mkStatus (st_user s) (st_worker s) status dt
                       else s).
  assert (Hnew : same new = true).
  { unfold same, new, same_worker. simpl. now rewrite !String.eqb_refl. }
  assert (Hupd : forall s, same s = true -> upd s = new).
  { intros s Hs. unfold upd. rewrite Hs.
    apply same_worker_spec in Hs. destruct Hs as [-> ->]. reflexivity. }
  assert (Hsame : forall s, same (upd s) = same s).
  { intros s. destruct (same s) eqn:Hs; [now rewrite Hupd | ].
    unfold upd. now rewrite Hs. }
  assert (Hcount : forall l, List.length (filter same (map upd l))
                             = List.length (filter same l)).
  { induction l as [|s l IH]; simpl; [reflexivity |].
    rewrite Hsame. destruct (same s); simpl; now rewrite IH. }
  assert (Hother : forall l, filter (fun s => negb (same s)) (map upd l)
                             = filter (fun s => negb (same s)) l).
  { induction l as [|s l IH]; simpl; [reflexivity |].
    rewrite Hsame. destruct (same s) eqn:Hs; simpl; rewrite IH; [reflexivity |].
    unfold upd. now rewrite Hs. }
  assert (Hfind : forall l, filter same l <> [] ->
                  find same (map upd l) = Some new).
  { induction l as [|s l IH]; simpl; [congruence |].
    rewrite Hsame. destruct (same s) eqn:Hs; [now rewrite Hupd | exact IH]. }
  assert (Hnone : forall l, filter same l = [] -> find same (map upd l) = None).
  { induction l as [|s l IH]; simpl; [reflexivity |].
    rewrite Hsame. destruct (same s); [discriminate | exact IH]. }
  assert (Hupd2 : forall l, map upd (map upd l) = map upd l).
  { intros l. rewrite map_map. apply map_ext. intros s.
    destruct (same s) eqn:Hs.
    - rewrite (Hupd s Hs). apply Hupd. exact Hnew.
    - unfold upd. now rewrite Hs, Hs. }
  unfold agent_receive_status. fold same. fold new. fold upd.
  destruct (filter same tbl) as [|s0 l0] eqn:Ef.
  - cbn [List.length Nat.eqb].
    assert (Hf : filter same (map upd tbl) = []).
    { apply length_zero_iff_nil. now rewrite Hcount, Ef. }
    repeat split.
    + rewrite find_append, (Hnone tbl Ef). simpl. now rewrite Hnew.
    + rewrite filter_app, Hother. simpl. rewrite Hnew. simpl. apply app_nil_r.
    + rewrite filter_app, Hf. simpl. now rewrite Hnew.
    + rewrite filter_app, Hf. simpl. rewrite Hnew. cbn [List.length Nat.eqb].
      rewrite map_app, Hupd2. simpl. now rewrite (Hupd new Hnew).
  - cbn [List.length Nat.eqb].
    assert (Hl : List.length (filter same (map upd tbl)) = S (List.length l0))
      by (now rewrite Hcount, Ef).
    repeat split.
    + apply Hfind. rewrite Ef. discriminate.
    + apply Hother.
    + rewrite Hl. destruct (List.length l0); reflexivity.
    + rewrite Hl. cbn [Nat.eqb]. apply Hupd2.
Qed.

Lemma check_row_again (now : Z) (statuses : list Status)
  (r r' : ThresholdRow) (out : list Monitor.notification) :
  check_row now statuses r = Ok (r', out) ->
  check_row now statuses r' = Ok (r', [])
  /\ tr_user r' = tr_user r /\ tr_worker r' = tr_worker r
  /\ Monitor.set_flag (tr_thresh r') Monitor.OfflineErr false
     = Monitor.set_flag (tr_thresh r) Monitor.OfflineErr false
  /\ (List.length out <= 1)%nat.
Proof.
  unfold check_row.
  destruct (Monitor.offline_thresh (tr_thresh r)) as [limit|] eqn:El.
  - destruct (find (same_worker (tr_user r) (tr_worker r)) statuses)
      as [last|] eqn:Ef.
    + destruct (minutes_since now (st_time last)) as [diff| |] eqn:Em;
        cbn [bind]; try discriminate.
      destruct (Monitor.offline_err (tr_thresh r)) eqn:Ee; cbn [negb andb].
      * destruct (Z.leb_spec diff limit) as [Hle | Hgt].
        -- intros [= <- <-]. cbn [tr_user tr_worker tr_thresh].
           cbn [Monitor.set_flag Monitor.offline_thresh Monitor.offline_err].
           rewrite El, Ef, Em. cbn [bind negb andb].
           destruct (Z.gtb_spec diff limit); [lia |].
           repeat split. simpl. lia.
        -- intros [= <- <-]. rewrite El, Ef, Em. cbn [bind]. rewrite Ee.
           cbn [negb andb]. destruct (Z.leb_spec diff limit); [lia |].
           repeat split. simpl. lia.
      * destruct (Z.gtb_spec diff limit) as [Hgt | Hle].
        -- intros [= <- <-]. cbn [tr_user tr_worker tr_thresh].
           cbn [Monitor.set_flag Monitor.offline_thresh Monitor.offline_err].
           rewrite El, Ef, Em. cbn [bind negb andb].
           destruct (Z.leb_spec diff limit); [lia |].
           repeat split. simpl. lia.
        -- intros [= <- <-]. rewrite El, Ef, Em. cbn [bind]. rewrite Ee.
           cbn [negb andb]. destruct (Z.gtb_spec diff limit); [lia |].
           repeat split. simpl. lia.
    + intros [= <- <-]. rewrite El, Ef. repeat split. simpl. lia.
  - intros [= <- <-]. rewrite El. repeat split. simpl. lia.
Qed.

(** X21. With notifications sent as [report_condition] is modelled above:
    a check that completes changes nothing of a threshold row but its
    offline flag, sends at most one notification per row, and leaves the
    flags such that a second check at the same instant on the same status
    rows sends nothing and changes nothing. *)
Theorem check_down_no_repeat (now : Z) (statuses : list Status)
  (rows rows' : list ThresholdRow) (out : list Monitor.notification) :
  check_down now statuses rows = (true, rows', out) ->
  check_down now statuses rows' = (true, rows', [])
  /\ Forall2 (fun r r' =>
       tr_user r' = tr_user r /\ tr_worker r' = tr_worker r
       /\ Monitor.set_flag (tr_thresh r') Monitor.OfflineErr false
          = Monitor.set_flag (tr_thresh r) Monitor.OfflineErr false)
       rows rows'
  /\ (List.length out <= List.length rows)%nat.
Proof.
  unfold check_down.
  assert (G : forall rs rs' o,
             check_rows now statuses rs = (Ok rs', o) ->
             check_rows now statuses rs' = (Ok rs', [])
             /\ Forall2 (fun r r' =>
                  tr_user r' = tr_user r /\ tr_worker r' = tr_worker r
                  /\ Monitor.set_flag (tr_thresh r') Monitor.OfflineErr false
                     = Monitor.set_flag (tr_thresh r) Monitor.OfflineErr false)
                  rs rs'
             /\ (List.length o <= List.length rs)%nat).
  { induction rs as [|r rest IH]; intros rs' o; cbn [check_rows].
    - intros [= <- <-]. repeat split; constructor.
    - destruct (check_row now statuses r) as [[r1 o1]| |] eqn:Er;
        try discriminate.
      destruct (check_rows now statuses rest) as [[rest1| |] o2] eqn:Erest;
        try discriminate.
      intros [= <- <-].
      destruct (IH rest1 o2 eq_refl) as [H1 [H2 H3]].
      destruct (check_row_again _ _ _ _ _ Er) as [Ha [Hu [Hw [Hf Hl]]]].
      cbn [check_rows]. rewrite Ha, H1. repeat split.
      + constructor; auto.
      + rewrite length_app. simpl. lia. }
  destruct (check_rows now statuses rows) as [[rs| |] o] eqn:E; try discriminate.
  intros [= <- <-]. destruct (G _ _ _ E) as [H1 [H2 H3]].
  rewrite H1. auto.
Qed.

Lemma check_down_no_repeat_witness :
  check_down 7200 [mkStatus "A" "rig" "{}" 0]
    [mkThresholdRow "A" "rig"
       (Monitor.mkThreshold None None (Some 60) true false false true)]
  = (true,
     [mkThresholdRow "A" "rig"
        (Monitor.mkThreshold None None (Some 60) true false false true)],
     []).
Proof.
  destruct (check_down_no_repeat 7200 [mkStatus "A" "rig" "{}" 0]
              [mkThresholdRow "A" "rig"
                 (Monitor.mkThreshold None None (Some 60) true false false false)]
              [mkThresholdRow "A" "rig"
                 (Monitor.mkThreshold None None (Some 60) true false false true)]
              [Monitor.Problem Monitor.OfflineErr]) as [H _].
  - vm_compute. reflexivity.
  - exact H.
Defined.
